(** * Order Splitter: the page classification core of [streamlit_app.py]

    A shallow embedding of the key normalizer ([normalize_key]), the
    candidate extractor ([extract_candidates]) with the regular expressions
    of [ANCHOR_PATTERNS], the vendor mapping build and the per-page routing
    loop of [process_store_ui], followed by the properties established about
    them.

    Outside the model: the Streamlit widgets and messages, the choice of the
    PDF backend, the progress bar, and the output stage that writes the
    vendor PDFs, the CSV log and the ZIP from the final state.

    Text is modelled by Rocq [string]s read as 7-bit ASCII: Python's
    [str.upper], [str.strip] and the [re] character classes are followed on
    the code points 0..127 ([Char.is_ascii]), the domain of the model. On a
    character outside it Python's [str] methods and [re] classes go by the
    Unicode tables (U+00A0 is whitespace, U+00E9 has an upper case and is a
    word character, U+017F matches [s] under [re.IGNORECASE]); the model
    treats the remaining byte values as inert symbols (no case, not
    whitespace, not word characters) and says nothing of such text. The
    properties that depend on it are stated for ASCII text. *)

From Stdlib Require Import Ascii String List Bool Arith ZArith QArith Qabs Lia.
From stdpp Require Import base option list gmap sets strings pretty sorting.


(** ** Characters *)

Module Char.

Definition code (c : ascii) : nat := nat_of_ascii c.

Definition between (lo hi : nat) (c : ascii) : bool :=
  (lo <=? code c)%nat && (code c <=? hi)%nat.

(** The code points 0..127: the characters on which the definitions below
    follow Python. *)
Definition is_ascii (c : ascii) : bool := (code c <? 128)%nat.

(** [str.isspace] on one ASCII character: TAB, LF, VT, FF, CR, the four
    separators FS, GS, RS, US and the space. [str.strip()] and the regex
    class [\s] both use it. Python's Unicode whitespace beyond these
    (U+0085, U+00A0, U+2003, ...) is outside the domain. *)
Definition is_space (c : ascii) : bool :=
  between 9 13 c || between 28 32 c.

Definition is_lower (c : ascii) : bool := between 97 122 c.
Definition is_upper (c : ascii) : bool := between 65 90 c.
Definition is_digit (c : ascii) : bool := between 48 57 c.
Definition is_alpha (c : ascii) : bool := is_lower c || is_upper c.
Definition is_alnum (c : ascii) : bool := is_alpha c || is_digit c.

(** The regex class [\w] on ASCII characters: letters, digits and the
    underscore. Python's [\w] on a [str] pattern also takes the letters and
    digits of Unicode, outside the domain. *)
Definition is_word (c : ascii) : bool := is_alnum c || Ascii.eqb c "_".

(** [str.upper] and [str.lower] on one ASCII character. Outside the domain
    Python maps by the Unicode case tables, and [upper] may even lengthen
    the string (U+00DF gives two letters). *)
Definition upper (c : ascii) : ascii :=
  if is_lower c then ascii_of_nat (code c - 32) else c.

Definition lower (c : ascii) : ascii :=
  if is_upper c then ascii_of_nat (code c + 32) else c.

(** Equality of characters under [re.IGNORECASE]. *)
Definition eqb_nocase (a b : ascii) : bool := Ascii.eqb (lower a) (lower b).

End Char.

(** ** Python string methods used by the program *)

Module Str.

Fixpoint all (p : ascii -> bool) (s : string) : bool :=
  match s with
  | "" => true
  | String c s' => p c && all p s'
  end.

Fixpoint map (f : ascii -> ascii) (s : string) : string :=
  match s with
  | "" => ""
  | String c s' => String (f c) (map f s')
  end.

Fixpoint filter (p : ascii -> bool) (s : string) : string :=
  match s with
  | "" => ""
  | String c s' => if p c then String c (filter p s') else filter p s'
  end.

(** [s.lstrip(chars)] and [s.rstrip(chars)], the set [chars] given as a
    predicate. *)
Fixpoint lstrip_of (p : ascii -> bool) (s : string) : string :=
  match s with
  | "" => ""
  | String c s' => if p c then lstrip_of p s' else s
  end.

Fixpoint rstrip_of (p : ascii -> bool) (s : string) : string :=
  match s with
  | "" => ""
  | String c s' =>
      match rstrip_of p s' with
      | "" => if p c then "" else String c ""
      | r => String c r
      end
  end.

Definition strip_of (p : ascii -> bool) (s : string) : string :=
  lstrip_of p (rstrip_of p s).

(** [s.strip()] *)
Definition strip (s : string) : string := strip_of Char.is_space s.

(** [s.strip(chars)] *)
Definition mem (chars : string) (c : ascii) : bool :=
  existsb (Ascii.eqb c) (list_ascii_of_string chars).

Definition strip_chars (chars : string) (s : string) : string :=
  strip_of (mem chars) s.

(** [s.upper()] *)
Definition upper (s : string) : string := map Char.upper s.

(** [s.lower()] *)
Definition lower (s : string) : string := map Char.lower s.

(** [s.replace(c, "")] for a one-character [c]. *)
Definition remove (c : ascii) (s : string) : string :=
  filter (fun x => negb (Ascii.eqb x c)) s.

(** [s.replace(c, d)] for one-character [c] and [d]. *)
Definition replace1 (c d : ascii) (s : string) : string :=
  map (fun x => if Ascii.eqb x c then d else x) s.

(** Number of leading characters of [s] that satisfy [p]. *)
Fixpoint span_length (p : ascii -> bool) (s : string) : nat :=
  match s with
  | String c s' => if p c then S (span_length p s') else 0
  | "" => 0
  end.

Fixpoint drop (n : nat) (s : string) : string :=
  match n, s with
  | S n', String _ s' => drop n' s'
  | _, _ => s
  end.

Fixpoint take (n : nat) (s : string) : string :=
  match n, s with
  | S n', String c s' => String c (take n' s')
  | _, _ => ""
  end.

(** [needle in s] *)
Fixpoint contains (needle s : string) : bool :=
  String.prefix needle s ||
  match s with
  | "" => false
  | String _ s' => contains needle s'
  end.

End Str.

(** ** Settings

    [ZERO_SIGNIFICANT = st.sidebar.checkbox("Treat leading zeros as
    significant", value=False)]: the one setting of the program, a global
    read by [normalize_key]. It is threaded explicitly through the model. *)

Definition ZERO_SIGNIFICANT_default : bool := false.

(** ** Key normalizer *)

Definition is_zero (c : ascii) : bool := Ascii.eqb c "0".

(** The regex position [$] (no MULTILINE): the end of the string, or just
    before a line feed that ends the string. *)
Definition at_dollar (rest : string) : bool :=
  match rest with
  | "" => true
  | String c "" => Ascii.eqb c "010"
  | _ => false
  end.

(** [re.sub(r"^0+(?!$)", "", s)]. The pattern is anchored at the start, so
    there is at most one match: [0+] takes the whole run of [k] leading
    zeros; when the look-ahead [(?!$)] refuses the position that follows, the
    matcher backs off one zero, where the look-ahead sees a ["0"] and
    succeeds, unless that leaves [0+] with nothing. *)
Definition strip_leading_zeros (s : string) : string :=
  let k := Str.span_length is_zero s in
  let k' := if at_dollar (Str.drop k s) then (k - 1)%nat else k in
  Str.drop k' s.

Definition normalize_key (ZERO_SIGNIFICANT : bool) (s : string) : string :=
  let s := Str.strip s in
  let s := if negb ZERO_SIGNIFICANT then strip_leading_zeros s else s in
  Str.remove "/" (Str.remove "_" (Str.remove "-" (Str.remove " " (Str.upper s)))).

(** ** Regular expressions

    The fragment of Python's [re] that [ANCHOR_PATTERNS] is written in,
    matched the way [re] does: by backtracking, alternatives tried left to
    right and repetitions greedy. [run r prev s] lists, in the order in which
    the backtracking matcher reaches them, the ways [r] can match a prefix of
    [s]; each is given by the character before the end position and the text
    that is left. [prev] is the character before the start position, which
    [\b] looks at. Everything is matched under [re.IGNORECASE]. *)

Inductive regex : Type :=
| Lit (c : ascii)                 (* one literal character *)
| Class (p : ascii -> bool)       (* [...] *)
| Seq (r1 r2 : regex)             (* r1 r2 *)
| Alt (r1 r2 : regex)             (* r1|r2 *)
| Opt (r : regex)                 (* r? *)
| Many (p : ascii -> bool)        (* [...]* *)
| WordBoundary.                   (* \b *)

Fixpoint lits (s : string) : regex :=
  match s with
  | "" => Opt (Class (fun _ => false))
  | String c "" => Lit c
  | String c s' => Seq (Lit c) (lits s')
  end.

(** A character class under [re.IGNORECASE]: the character, its lower case
    or its upper case is in the class. On ASCII text this is what [re] does;
    the two characters outside ASCII that [re] folds onto ASCII letters
    (U+017F onto [s], U+212A onto [k]) are outside the domain. *)
Definition class_nocase (p : ascii -> bool) (c : ascii) : bool :=
  p c || p (Char.lower c) || p (Char.upper c).

Definition is_word_opt (o : option ascii) : bool :=
  match o with Some c => Char.is_word c | None => false end.

Definition next_char (s : string) : option ascii :=
  match s with String c _ => Some c | "" => None end.

Fixpoint run_many (p : ascii -> bool) (prev : option ascii) (s : string)
  : list (option ascii * string) :=
  match s with
  | String c s' =>
      if class_nocase p c then run_many p (Some c) s' ++ [(prev, s)]
      else [(prev, s)]
  | "" => [(prev, s)]
  end.

Fixpoint run (r : regex) (prev : option ascii) (s : string)
  : list (option ascii * string) :=
  match r with
  | Lit c =>
      match s with
      | String x s' => if Char.eqb_nocase x c then [(Some x, s')] else []
      | "" => []
      end
  | Class p =>
      match s with
      | String x s' => if class_nocase p x then [(Some x, s')] else []
      | "" => []
      end
  | Seq r1 r2 => flat_map (fun '(prev', s') => run r2 prev' s') (run r1 prev s)
  | Alt r1 r2 => run r1 prev s ++ run r2 prev s
  | Opt r1 => run r1 prev s ++ [(prev, s)]
  | Many p => run_many p prev s
  | WordBoundary =>
      if xorb (is_word_opt prev) (is_word_opt (next_char s))
      then [(prev, s)] else []
  end.

(** An anchor pattern [(g1)(g2)]: two capture groups in sequence. *)
Record pattern := { group1 : regex; group2 : regex }.

(** The match object of [pat] at the start of [s], if there is one: the text
    of [group(2)] and the length of the whole match. The first way to
    match that the backtracking matcher finds is the match. *)
Definition match_here (pat : pattern) (prev : option ascii) (s : string)
  : option (string * nat) :=
  let ends :=
    flat_map (fun '(prev1, s1) =>
                List.map (fun '(_, s2) => (s1, s2)) (run (group2 pat) prev1 s1))
             (run (group1 pat) prev s) in
  match ends with
  | (s1, s2) :: _ =>
      Some (Str.take (String.length s1 - String.length s2) s1,
            (String.length s - String.length s2)%nat)
  | [] => None
  end.

(** [re.finditer]: the non-overlapping matches from left to right, here the
    [group(2)] of each. After a match of length [n] the scan resumes where
    the match ended, which is [skip = n - 1] characters after the next one.
    No anchor pattern matches the empty string. *)
Fixpoint finditer_from (pat : pattern) (skip : nat) (prev : option ascii)
  (s : string) : list string :=
  match s with
  | "" => []
  | String c s' =>
      match skip with
      | S k => finditer_from pat k (Some c) s'
      | O =>
          match match_here pat prev s with
          | Some (tok, n) => tok :: finditer_from pat (n - 1) (Some c) s'
          | None => finditer_from pat 0 (Some c) s'
          end
      end
  end.

Definition finditer (pat : pattern) (s : string) : list string :=
  finditer_from pat 0 None s.

(** ** Candidate extractor *)

Definition ws : regex := Many Char.is_space.                       (* \s* *)
Definition sep : regex :=                                          (* [:\-]? *)
  Opt (Class (fun c => Ascii.eqb c ":" || Ascii.eqb c "-")).
Definition A_Z0_9 (c : ascii) : bool := Char.is_upper c || Char.is_digit c.
Definition token_char (c : ascii) : bool :=                        (* [A-Z0-9\-/_] *)
  A_Z0_9 c || Ascii.eqb c "-" || Ascii.eqb c "/" || Ascii.eqb c "_".

(** Group 2 of every pattern: [A-Z0-9][A-Z0-9\-/_]{2,} *)
Definition token : regex :=
  Seq (Class A_Z0_9) (Seq (Class token_char) (Seq (Class token_char) (Many token_char))).

Definition ANCHOR_PATTERNS : list (pattern * string) :=
  [ (* group 1: Model(?:\s*#|(?:\s*Number)?)\s*[:\-]?\s* *)
    ({| group1 := Seq (lits "Model")
                   (Seq (Alt (Seq ws (Lit "#")) (Opt (Seq ws (lits "Number"))))
                   (Seq ws (Seq sep ws)));
        group2 := token |}, "Model");
    (* group 1: Item\s*#\s*[:\-]?\s* *)
    ({| group1 := Seq (lits "Item") (Seq ws (Seq (Lit "#") (Seq ws (Seq sep ws))));
        group2 := token |}, "Item");
    (* group 1: Internet\s*#\s*[:\-]?\s* *)
    ({| group1 := Seq (lits "Internet") (Seq ws (Seq (Lit "#") (Seq ws (Seq sep ws))));
        group2 := token |}, "Internet");
    (* group 1: \bSKU\b(?:\s*#)?\s*[:\-]?\s* *)
    ({| group1 := Seq WordBoundary (Seq (lits "SKU") (Seq WordBoundary
                   (Seq (Opt (Seq ws (Lit "#"))) (Seq ws (Seq sep ws)))));
        group2 := token |}, "SKU") ].

(** A candidate [(label, token)]. *)
Definition candidate : Type := string * string.

(** [extract_candidates(text)]. The argument is [None] for Python's [None]:
    [if not text] sends both [None] and the empty string to the early
    return. *)
Definition extract_candidates (text : option string) : list candidate :=
  match text with
  | None | Some "" => []
  | Some text =>
      let joined := Str.replace1 "010" " " (Str.replace1 "013" " " text) in
      flat_map (fun '(pat, label) =>
                  List.map (fun g2 => (label, Str.strip_chars ":#" (Str.strip g2)))
                           (finditer pat joined))
               ANCHOR_PATTERNS
  end.


(** ** The vendor mapping *)

(** A spreadsheet cell as [pandas] hands it over, seen through [str(...)]:
    text (a number is its rendering), NaN for an empty cell, or [None]. *)
Inductive cell : Type :=
| CellText (s : string)
| CellNaN
| CellNone.

Definition py_str (c : cell) : string :=
  match c with
  | CellText s => s
  | CellNaN => "nan"
  | CellNone => "None"
  end.

(** A row of the data frame, by column header. Every row of a data frame has
    all its columns; a cell that the sheet leaves out is NaN. *)
Definition row_getitem (row : gmap string cell) (col : string) : cell :=
  default CellNaN (row !! col).

Definition row_get (row : gmap string cell) (col : string) (dflt : cell) : cell :=
  default dflt (row !! col).

Record dataframe := {
  df_columns : list string;
  df_rows : list (gmap string cell)
}.

Definition str_in (s : string) (l : list string) : bool :=
  existsb (String.eqb s) l.

(** The first column whose header contains "vendor", any case. *)
Definition find_vendor_col (columns : list string) : option string :=
  List.find (fun c => Str.contains "vendor" (Str.lower c)) columns.

Definition find_key_cols (columns : list string) : list string :=
  List.filter
    (fun c => existsb (fun k => Str.contains k (Str.lower c))
                      ["sku"; "item"; "model"; "internet"])
    columns.

(** The body of [for col in key_cols]. *)
Definition add_key (ZERO_SIGNIFICANT : bool) (row : gmap string cell)
  (vendor : string) (mapping : gmap string string) (col : string)
  : gmap string string :=
  let v := Str.strip (py_str (row_get row col (CellText ""))) in
  if negb (String.eqb v "") && negb (str_in v ["nan"; "None"])
  then <[normalize_key ZERO_SIGNIFICANT v := vendor]> mapping
  else mapping.

(** The body of [for _, row in df.iterrows()]. *)
Definition add_row (ZERO_SIGNIFICANT : bool) (vendor_col : string)
  (key_cols : list string) (mapping : gmap string string)
  (row : gmap string cell) : gmap string string :=
  let vendor := Str.strip (py_str (row_getitem row vendor_col)) in
  if str_in vendor [""; "nan"; "None"] then mapping
  else fold_left (add_key ZERO_SIGNIFICANT row vendor) key_cols mapping.

Definition build_mapping (ZERO_SIGNIFICANT : bool) (vendor_col : string)
  (key_cols : list string) (rows : list (gmap string cell))
  : gmap string string :=
  fold_left (add_row ZERO_SIGNIFICANT vendor_col key_cols) rows ∅.

(** ** Page classification *)

(** A match [(raw, nz, mapping[nz], label, "native", score)]. *)
Record vendor_match := {
  m_raw : string;
  m_nz : string;
  m_vendor : string;
  m_label : string;
  m_method : string;
  m_score : Q
}.

(** [order = [p[1] for p in ANCHOR_PATTERNS]] *)
Definition order : list string := List.map snd ANCHOR_PATTERNS.

(** [l.index(x)] where [x in l], as an option. *)
Fixpoint list_index (x : string) (l : list string) : option nat :=
  match l with
  | [] => None
  | y :: l' => if String.eqb y x then Some 0%nat else S <$> list_index x l'
  end.

(** [1.0 - 0.1 * order.index(label) if label in order else 0.5]. Python
    computes in binary64, where the five possible values are 1.0,
    0.90000000000000002, 0.80000000000000004, 0.69999999999999996 and 0.5;
    the model keeps the exact decimals 1, 0.9, 0.8, 0.7 and 0.5, which
    compare and print to two decimals the same way. *)
Definition score_of (label : string) : Q :=
  match list_index label order with
  | Some i => 1 - (1 # 10) * inject_Z (Z.of_nat i)
  | None => 1 # 2
  end.

(** The loop [for label, raw in cands], one candidate. *)
Definition match_candidate (ZERO_SIGNIFICANT : bool)
  (mapping : gmap string string) (keyset : gset string) (c : candidate)
  : list vendor_match :=
  let '(label, raw) := c in
  let nz := normalize_key ZERO_SIGNIFICANT raw in
  if bool_decide (nz ∈ keyset)
  then [ {| m_raw := raw; m_nz := nz; m_vendor := mapping !!! nz;
            m_label := label; m_method := "native";
            m_score := score_of label |} ]
  else [].

Definition page_matches (ZERO_SIGNIFICANT : bool)
  (mapping : gmap string string) (keyset : gset string)
  (cands : list candidate) : list vendor_match :=
  flat_map (match_candidate ZERO_SIGNIFICANT mapping keyset) cands.

(** [vendors = list({m[2] for m in matches})]: the distinct vendors. The
    program reads only the length of this list and, when it is 1, its one
    element, so the order Python's set iterates in plays no part. *)
Definition page_vendors (matches : list vendor_match) : list string :=
  elements (list_to_set (m_vendor <$> matches) : gset string).

(** [sorted(l, key=key)]: ascending and stable. *)
Fixpoint insert_by {A} (key : A -> Q) (x : A) (l : list A) : list A :=
  match l with
  | [] => [x]
  | y :: l' => if Qle_bool (key x) (key y) then x :: l else y :: insert_by key x l'
  end.

Definition sorted_by {A} (key : A -> Q) (l : list A) : list A :=
  foldr (insert_by key) [] l.

(** [sorted(matches, key=lambda x: -x[5])[0] if matches else None] *)
Definition best_match (matches : list vendor_match) : option vendor_match :=
  head (sorted_by (fun x => - m_score x) matches).

(** [f"{q:.2f}"]: two decimals, ties to even. *)
Definition two_digits (n : nat) : string :=
  if (n <? 10)%nat then "0" +:+ pretty n else pretty n.

Definition round_half_even (q : Q) : Z :=
  let d := Z.pos (Qden q) in
  let fl := (Qnum q / d)%Z in
  match (2 * (Qnum q mod d) ?= d)%Z with
  | Lt => fl
  | Gt => (fl + 1)%Z
  | Eq => if Z.even fl then fl else (fl + 1)%Z
  end.

Definition format_2f (q : Q) : string :=
  let n := Z.to_nat (round_half_even (Qabs q * 100)) in
  (if Qlt_le_dec q 0 then "-" else "")
    +:+ pretty (n / 100)%nat +:+ "." +:+ two_digits (n mod 100)%nat.

(** ** The routing loop of [process_store_ui] *)

(** What [page.extract_text()] does on one page. *)
Inductive extraction : Type :=
| Text (s : string)
| NoText          (* returns None *)
| Raises.         (* raises an exception *)

(** [text = page.extract_text() or ""], and [""] in the [except] branch. *)
Definition page_text (e : extraction) : string :=
  match e with
  | Text s => s
  | NoText | Raises => ""
  end.

(** An uploaded PDF: its name and what [PdfReader] makes of it, [None] when
    the file cannot be opened. *)
Record pdf := {
  pdf_name : string;
  pdf_reader : option (list extraction)
}.

(** The page [reader.pages[i]] of the PDF called [name]. *)
Definition page_ref : Type := string * nat.

Record log_record := {
  store : string;
  source_pdf : string;
  page_index : string;
  vendor : string;
  raw_token : string;
  normalized : string;
  anchor : string;
  method : string;
  confidence : string
}.

(** The state the loop mutates: the per-vendor writers, the writes made
    under [errors/mixed] and under [errors/unmatched], and the log.
    [mixed_dir] and [unmatched_dir] are not the contents of the directories:
    each is the sequence of the [open(..., "wb")] calls made in it, file name
    and pages written, in the order they are made. What the directory holds
    afterwards is [dir_files] of the sequence, where a later write of a name
    replaces the earlier file; a statement about the files of a run is a
    statement about [dir_files]. *)
Record run_state := {
  vendor_writers : gmap string (list page_ref);
  mixed_dir : list (string * list page_ref);
  unmatched_dir : list (string * list page_ref);
  logs : list log_record
}.

(** The files of a directory after the writes [writes], each with the pages
    it holds: [open(name, "wb")] truncates, so the last write of a name is
    the one that stays. *)
Definition dir_files (writes : list (string * list page_ref))
  : gmap string (list page_ref) :=
  fold_left (fun files '(name, pages) => <[name := pages]> files) writes ∅.

Definition initial_state : run_state :=
  {| vendor_writers := ∅; mixed_dir := []; unmatched_dir := []; logs := [] |}.

Definition ensure_writer (v : string) (writers : gmap string (list page_ref))
  : gmap string (list page_ref) :=
  match writers !! v with
  | Some _ => writers
  | None => <[v := []]> writers
  end.

(** [w = ensure_writer(v); w.add_page(page)] *)
Definition writer_add_page (v : string) (pg : page_ref)
  (writers : gmap string (list page_ref)) : gmap string (list page_ref) :=
  alter (fun w => w ++ [pg]) v (ensure_writer v writers).

(** [safe_name(s)]: [re.sub] of every maximal run of characters outside
    [\w] and [-] by one underscore, then [strip("_")]. *)
Fixpoint sub_runs (p : ascii -> bool) (in_run : bool) (s : string) : string :=
  match s with
  | "" => ""
  | String c s' =>
      if p c then (if in_run then sub_runs p true s' else String "_" (sub_runs p true s'))
      else String c (sub_runs p false s')
  end.

Definition safe_name (s : string) : string :=
  Str.strip_chars "_"
    (sub_runs (fun c => negb (Char.is_word c || Ascii.eqb c "-")) false s).

(** [f"{safe_name(pdf.name)}_p{i+1}.pdf"] *)
Definition page_file_name (name : string) (i : nat) : string :=
  safe_name name +:+ "_p" +:+ pretty (i + 1)%nat +:+ ".pdf".

Definition best_field (best : option vendor_match)
  (f : vendor_match -> string) (dflt : string) : string :=
  match best with Some b => f b | None => dflt end.

(** The body of [for i, page in enumerate(reader.pages)] from the candidates
    on: the matches, the distinct vendors, and the three branches
    [len(vendors) == 1], [len(vendors) > 1] and the [else]. *)
Definition route_candidates (ZERO_SIGNIFICANT : bool)
  (mapping : gmap string string) (keyset : gset string)
  (store_key name : string) (st : run_state) (i : nat) (cands : list candidate)
  : run_state :=
  let matches := page_matches ZERO_SIGNIFICANT mapping keyset cands in
  match page_vendors matches with
  | [v] =>
      let best := best_match matches in
      {| vendor_writers := writer_add_page v (name, i) (vendor_writers st);
         mixed_dir := mixed_dir st;
         unmatched_dir := unmatched_dir st;
         logs := logs st ++
           [ {| store := store_key; source_pdf := name; page_index := pretty i;
                vendor := v;
                raw_token := best_field best m_raw "";
                normalized := best_field best m_nz "";
                anchor := best_field best m_label "";
                method := best_field best m_method "";
                confidence := best_field best (fun b => format_2f (m_score b)) "0.00" |} ] |}
  | _ :: _ :: _ =>
      {| vendor_writers := vendor_writers st;
         mixed_dir := mixed_dir st ++ [(page_file_name name i, [(name, i)])];
         unmatched_dir := unmatched_dir st;
         logs := logs st ++
           [ {| store := store_key; source_pdf := name; page_index := pretty i;
                vendor := "MIXED"; raw_token := ""; normalized := "";
                anchor := ""; method := ""; confidence := "0.00" |} ] |}
  | [] =>
      {| vendor_writers := vendor_writers st;
         mixed_dir := mixed_dir st;
         unmatched_dir := unmatched_dir st ++ [(page_file_name name i, [(name, i)])];
         logs := logs st ++
           [ {| store := store_key; source_pdf := name; page_index := pretty i;
                vendor := "UNMATCHED"; raw_token := ""; normalized := "";
                anchor := ""; method := ""; confidence := "0.00" |} ] |}
  end.

(** The whole body: the page's text, its candidates, then the above. *)
Definition process_page (ZERO_SIGNIFICANT : bool)
  (mapping : gmap string string) (keyset : gset string)
  (store_key name : string) (st : run_state) (i : nat) (page : extraction)
  : run_state :=
  let text := page_text page in
  let cands := extract_candidates (Some text) in
  route_candidates ZERO_SIGNIFICANT mapping keyset store_key name st i cands.

(** [enumerate(l)] *)
Definition enumerate {A} (l : list A) : list (nat * A) :=
  combine (seq 0 (length l)) l.

(** The body of [for pdf in pdfs]: a PDF that cannot be opened is reported
    and skipped. *)
Definition process_pdf (ZERO_SIGNIFICANT : bool)
  (mapping : gmap string string) (keyset : gset string) (store_key : string)
  (st : run_state) (f : pdf) : run_state :=
  match pdf_reader f with
  | None => st
  | Some pages =>
      fold_left (fun st '(i, page) =>
                   process_page ZERO_SIGNIFICANT mapping keyset store_key
                                (pdf_name f) st i page)
                (enumerate pages) st
  end.

Definition route_pages (ZERO_SIGNIFICANT : bool)
  (mapping : gmap string string) (store_key : string) (pdfs : list pdf)
  : run_state :=
  fold_left (process_pdf ZERO_SIGNIFICANT mapping (dom mapping) store_key)
            pdfs initial_state.

(** The uploaded spreadsheet: none, one that [pd.read_excel] rejects, or a
    data frame. *)
Inductive xls_upload : Type :=
| NoXls
| BadXls
| Xls (df : dataframe).

Inductive run_error : Type :=
| MissingUpload        (* "Please upload at least one PDF and a SKU->Vendor Excel." *)
| ExcelUnreadable
| NoVendorColumn       (* "Excel needs a 'Vendor' column (any case)." *)
| NoKeyColumns.        (* "No key columns found in Excel ..." *)

(** [process_store_ui] from the upload check to the end of the page loop.
    What follows in the source writes the state out (one PDF per vendor
    writer, the log as CSV, the ZIP) and is not part of the model. *)
Definition process_store_ui (ZERO_SIGNIFICANT : bool) (store_key : string)
  (pdfs : list pdf) (xls : xls_upload) : run_error + run_state :=
  match pdfs, xls with
  | [], _ | _, NoXls => inl MissingUpload
  | _, BadXls => inl ExcelUnreadable
  | _, Xls df =>
      match find_vendor_col (df_columns df) with
      | None => inl NoVendorColumn
      | Some vendor_col =>
          match find_key_cols (df_columns df) with
          | [] => inl NoKeyColumns
          | key_cols =>
              let mapping :=
                build_mapping ZERO_SIGNIFICANT vendor_col key_cols (df_rows df) in
              inr (route_pages ZERO_SIGNIFICANT mapping store_key pdfs)
          end
      end
  end.

(** ** Vocabulary of the statements *)

(** The characters [normalize_key] deletes. *)
Definition is_separator (c : ascii) : bool :=
  Ascii.eqb c " " || Ascii.eqb c "-" || Ascii.eqb c "_" || Ascii.eqb c "/".

(** [k] zeros in front of [s]. *)
Fixpoint zeros (k : nat) (s : string) : string :=
  match k with
  | O => s
  | S k' => String "0" (zeros k' s)
  end.

Definition not_separator (c : ascii) : bool := negb (is_separator c).
Definition not_space (c : ascii) : bool := negb (Char.is_space c).

(** Whitespace only in the form of the plain space. *)
Definition plain_space (c : ascii) : bool :=
  negb (Char.is_space c) || Ascii.eqb c " ".

(** The first character after the leading zeros of [s], if there is one, is
    not a separator. *)
Definition after_zeros_ok (s : string) : bool :=
  match Str.drop (Str.span_length is_zero s) s with
  | String c _ => not_separator c
  | EmptyString => true
  end.

(** The candidates of a page. *)
Definition page_candidates (page : extraction) : list candidate :=
  extract_candidates (Some (page_text page)).

(** What a candidate resolves to by exact lookup of its key, if anything. *)
Definition resolve (zs : bool) (mapping : gmap string string) (c : candidate)
  : option vendor_match :=
  (fun v => {| m_raw := c.2; m_nz := normalize_key zs c.2; m_vendor := v;
               m_label := c.1; m_method := "native"; m_score := score_of c.1 |})
    <$> mapping !! normalize_key zs c.2.

(** The set of vendors the matches name. *)
Definition distinct_vendors (matches : list vendor_match) : gset string :=
  list_to_set (m_vendor <$> matches).

(** Pages held by the vendor writers. *)
Definition writer_pages (writers : gmap string (list page_ref)) : nat :=
  map_fold (fun _ w n => (length w + n)%nat) 0%nat writers.

(** The routing actions made so far: the pages added to the vendor writers
    and the writes made under the two error directories. A write is counted
    whether or not a later write replaces its file. *)
Definition routed_pages (st : run_state) : nat :=
  (writer_pages (vendor_writers st) + length (mixed_dir st)
   + length (unmatched_dir st))%nat.

(** Pages of the PDFs that open. *)
Definition pdf_page_count (f : pdf) : nat :=
  match pdf_reader f with
  | Some pages => length pages
  | None => 0%nat
  end.

Definition total_pages (pdfs : list pdf) : nat :=
  sum_list (pdf_page_count <$> pdfs).

(** The three things the loop body can do with the page [pg]. *)
Definition added_to_vendor (v : string) (st st' : run_state) (pg : page_ref) : Prop :=
  vendor_writers st' = writer_add_page v pg (vendor_writers st)
  /\ mixed_dir st' = mixed_dir st
  /\ unmatched_dir st' = unmatched_dir st.

Definition written_to_mixed (st st' : run_state) (file : string) (pg : page_ref) : Prop :=
  vendor_writers st' = vendor_writers st
  /\ mixed_dir st' = mixed_dir st ++ [(file, [pg])]
  /\ unmatched_dir st' = unmatched_dir st.

Definition written_to_unmatched (st st' : run_state) (file : string) (pg : page_ref) : Prop :=
  vendor_writers st' = vendor_writers st
  /\ mixed_dir st' = mixed_dir st
  /\ unmatched_dir st' = unmatched_dir st ++ [(file, [pg])].

Definition exactly_one (A B C : Prop) : Prop :=
  (A \/ B \/ C) /\ ~ (A /\ B) /\ ~ (A /\ C) /\ ~ (B /\ C).

(** The log record of a page that is not routed. *)
Definition blank_log (store_key name : string) (i : nat) (v : string) : log_record :=
  {| store := store_key; source_pdf := name; page_index := pretty i;
     vendor := v; raw_token := ""; normalized := ""; anchor := "";
     method := ""; confidence := "0.00" |}.

(** The log record of a routed page whose best match is [b]. *)
Definition match_log (store_key name : string) (i : nat) (v : string)
  (b : vendor_match) : log_record :=
  {| store := store_key; source_pdf := name; page_index := pretty i;
     vendor := v; raw_token := m_raw b; normalized := m_nz b;
     anchor := m_label b; method := m_method b;
     confidence := format_2f (m_score b) |}.

(** [m1] may come before [m2] in order of priority: its score is not less. *)
Definition by_priority (m1 m2 : vendor_match) : Prop :=
  (m_score m2 <= m_score m1)%Q.

(** The loop body appended one log record, with vendor field [v]. *)
Definition logged_as (st st' : run_state) (v : string) : Prop :=
  exists r, logs st' = logs st ++ [r] /\ vendor r = v.

(** ** Vocabulary of the further properties *)

(** The last character of a string. *)
Fixpoint last_char (s : string) : option ascii :=
  match s with
  | EmptyString => None
  | String c EmptyString => Some c
  | String _ s' => last_char s'
  end.

(** A character of a canonical key: neither a separator nor a lower-case
    letter. *)
Definition key_char (c : ascii) : bool :=
  not_separator c && negb (Char.is_lower c).

(** The characters a candidate token is made of: letters, digits, [-], [/]
    and [_]. *)
Definition token_symbol (c : ascii) : bool :=
  Char.is_alnum c || Ascii.eqb c "-" || Ascii.eqb c "/" || Ascii.eqb c "_".

(** A token as the anchor patterns capture it: a letter or digit followed by
    at least two token symbols. *)
Definition well_formed_token (tok : string) : bool :=
  match tok with
  | String a rest => Char.is_alnum a && Str.all token_symbol rest
                     && (2 <=? String.length rest)%nat
  | EmptyString => false
  end.

(** The characters [safe_name] lets through. *)
Definition file_name_char (c : ascii) : bool :=
  Char.is_word c || Ascii.eqb c "-".

(** The vendor of a row: the text of its vendor cell, trimmed. *)
Definition row_vendor (vendor_col : string) (row : gmap string cell) : string :=
  Str.strip (py_str (row_getitem row vendor_col)).

(** The text of a key cell, trimmed. *)
Definition row_key_text (row : gmap string cell) (col : string) : string :=
  Str.strip (py_str (row_get row col (CellText ""))).

Definition is_blank_vendor (v : string) : bool := str_in v [""; "nan"; "None"].

Definition is_blank_key (v : string) : bool :=
  String.eqb v "" || str_in v ["nan"; "None"].

(** The row supplies the key [k]: it has a vendor, and one of its key cells
    is not blank and normalizes to [k]. *)
Definition supplies (zs : bool) (vendor_col : string) (key_cols : list string)
  (row : gmap string cell) (k : string) : Prop :=
  is_blank_vendor (row_vendor vendor_col row) = false
  /\ exists col, In col key_cols
       /\ is_blank_key (row_key_text row col) = false
       /\ normalize_key zs (row_key_text row col) = k.

(** [needle] occurs in [s]. *)
Definition has_substring (needle s : string) : Prop :=
  exists pre post, s = pre +:+ needle +:+ post.

(** The header names the vendor column, or a key column: in any case, it
    contains the word. *)
Definition names_vendor (header : string) : Prop :=
  has_substring "vendor" (Str.lower header).

Definition names_key (header : string) : Prop :=
  exists w, In w ["sku"; "item"; "model"; "internet"]
            /\ has_substring w (Str.lower header).

(** The pages a run goes through, in order: PDF by PDF as uploaded, page by
    page, the PDFs that do not open left out. *)
Definition expected_pages (pdfs : list pdf) : list (string * nat) :=
  flat_map (fun f => match pdf_reader f with
                     | Some pages => List.map (pair (pdf_name f)) (seq 0 (length pages))
                     | None => []
                     end) pdfs.

(** A log record of a page that was not routed. *)
Definition blank_record (r : log_record) : Prop :=
  In (vendor r) ["MIXED"; "UNMATCHED"]
  /\ raw_token r = "" /\ normalized r = "" /\ anchor r = "" /\ method r = ""
  /\ confidence r = "0.00".

(** A log record of a routed page: its token is a well-formed token, its
    key the key of that token, its vendor what the mapping holds for the
    key, and the confidence goes with the anchor. *)
Definition routed_record (zs : bool) (mapping : gmap string string)
  (r : log_record) : Prop :=
  well_formed_token (raw_token r) = true
  /\ normalized r = normalize_key zs (raw_token r)
  /\ mapping !! normalized r = Some (vendor r)
  /\ method r = "native"
  /\ In (anchor r, confidence r)
        [("Model", "1.00"); ("Item", "0.90"); ("Internet", "0.80"); ("SKU", "0.70")].

(** The pages the log attributes to vendor [v] through a match, and the
    pages it reports under the label MIXED or UNMATCHED, as the log names
    them: PDF name and page index as text. *)
Definition logged_pages (v : string) (l : list log_record) : list (string * string) :=
  List.map (fun r => (source_pdf r, page_index r))
    (List.filter (fun r => String.eqb (vendor r) v
                           && negb (String.eqb (raw_token r) "")) l).

Definition logged_errors (label : string) (l : list log_record) : list (string * string) :=
  List.map (fun r => (source_pdf r, page_index r))
    (List.filter (fun r => String.eqb (vendor r) label
                           && String.eqb (raw_token r) "") l).

(** A page the way the log names it. *)
Definition page_name (pg : page_ref) : string * string := (pg.1, pretty pg.2).

(** The file written for a page under [errors/mixed] or [errors/unmatched]. *)
Definition page_file (pg : page_ref) : string * list page_ref :=
  (page_file_name pg.1 pg.2, [pg]).




(** The names of the PDFs that open. *)
Definition opened_names (pdfs : list pdf) : list string :=
  omap (fun f => match pdf_reader f with
                 | Some _ => Some (pdf_name f)
                 | None => None
                 end) pdfs.

(** The file name of a page under [errors/mixed] or [errors/unmatched]. *)
Definition page_file_of (pg : page_ref) : string := page_file_name pg.1 pg.2.

Definition not_underscore (c : ascii) : bool := negb (Ascii.eqb c "_").

(** Text of the domain of the model: every character is ASCII. *)
Definition ascii_text (s : string) : Prop := Str.all Char.is_ascii s = true.






(** ** Inputs of the examples *)



(** Two uploads with distinct safe names: a page of vendor Acme followed by
    a page without a product number, and a page whose text cannot be read. *)
Definition distinct_uploads : list pdf :=
  [ {| pdf_name := "a.pdf"; pdf_reader := Some [Text "SKU: A-1"; Text "nothing"] |};
    {| pdf_name := "b.pdf"; pdf_reader := Some [Raises] |} ].

(** * Properties *)

(** ** Worked examples *)

Example extract_model_and_item :
  extract_candidates (Some "Model #: ABC-123 Item# XYZ999")
  = [("Model", "ABC-123"); ("Item", "XYZ999")].
Proof. vm_compute. reflexivity. Qed.

(** An anchor and its token may sit on two lines; occurrences come out anchor
    by anchor, not in text order. *)
Example extract_across_lines :
  extract_candidates
    (Some ("sku 11-22" +:+ String "010" "Internet #" +:+ String "010" "123456789 SKU#:9/9_9"))
  = [("Internet", "123456789"); ("SKU", "11-22"); ("SKU", "9/9_9")].
Proof. vm_compute. reflexivity. Qed.

(** Backtracking: with nothing after it, the word Number is taken as the
    token; SKU needs a word boundary on both sides. *)
Example extract_backtracks :
  extract_candidates (Some "Model Number") = [("Model", "Number")]
  /\ extract_candidates (Some "SKU123 xSKU 456 SKU_789") = [].
Proof. vm_compute. split; reflexivity. Qed.

Example normalize_key_examples :
  normalize_key false "  00abc-1_2/3 x " = "ABC123X"
  /\ normalize_key true " 00abc " = "00ABC"
  /\ normalize_key false "0000" = "0"
  /\ normalize_key false "" = "".
Proof. vm_compute. repeat split; reflexivity. Qed.

Example safe_name_example : safe_name "my order (1).pdf" = "my_order_1_pdf".
Proof. vm_compute. reflexivity. Qed.

Example format_scores :
  format_2f <$> (score_of <$> ["Model"; "Item"; "Internet"; "SKU"; "Other"])
  = ["1.00"; "0.90"; "0.80"; "0.70"; "0.50"].
Proof. vm_compute. reflexivity. Qed.

(** A run over one PDF of five pages and one that does not open: a routed
    page, a mixed one, one without text, one routed by its SKU, and one whose
    SKU belongs to a row without vendor. *)
Example run_example :
  match
    process_store_ui false "Depot"
      [ {| pdf_name := "a b.pdf";
           pdf_reader := Some [ Text "Model #: ABC-123 Item# XYZ998";
                                Text "Model #: ABC-123 Item# XYZ999";
                                Raises;
                                Text "sku xyz-999";
                                Text "sku zzz111" ] |};
        {| pdf_name := "bad.pdf"; pdf_reader := None |} ]
      (Xls {| df_columns := ["Vendor Name"; "SKU"; "Model #"; "notes"];
              df_rows :=
                [ {[ "Vendor Name" := CellText "Acme"; "SKU" := CellText " 00abc-123 ";
                     "Model #" := CellNaN ]};
                  {[ "Vendor Name" := CellNaN; "SKU" := CellText "zzz111" ]};
                  {[ "Vendor Name" := CellText "Beta"; "SKU" := CellText "XYZ999" ]} ] |})
  with
  | inr st =>
      vendor <$> logs st = ["Acme"; "MIXED"; "UNMATCHED"; "Beta"; "UNMATCHED"]
      /\ map_to_list (vendor_writers st)
         = [("Acme", [("a b.pdf", 0%nat)]); ("Beta", [("a b.pdf", 3%nat)])]
      /\ mixed_dir st = [("a_b_pdf_p2.pdf", [("a b.pdf", 1%nat)])]
      /\ unmatched_dir st = [("a_b_pdf_p3.pdf", [("a b.pdf", 2%nat)]);
                             ("a_b_pdf_p5.pdf", [("a b.pdf", 4%nat)])]
  | inl _ => False
  end.
Proof. vm_compute. repeat split; reflexivity. Qed.

(** Two uploads of the same name: both pages are written and logged, under
    one file name, so the second write replaces the first file on disk. *)
Example same_name_pages_share_a_file :
  match
    process_store_ui false "Depot"
      [ {| pdf_name := "a.pdf"; pdf_reader := Some [Text "no anchor here"] |};
        {| pdf_name := "a.pdf"; pdf_reader := Some [Text "nor here"] |} ]
      (Xls {| df_columns := ["Vendor"; "SKU"];
              df_rows := [ {[ "Vendor" := CellText "Acme"; "SKU" := CellText "A-1" ]} ] |})
  with
  | inr st =>
      length (logs st) = 2%nat
      /\ (fst <$> unmatched_dir st) = ["a_pdf_p1.pdf"; "a_pdf_p1.pdf"]
      /\ size (dir_files (unmatched_dir st)) = 1%nat
  | inl _ => False
  end.
Proof. vm_compute. repeat split; reflexivity. Qed.

(** ** Characters and strings *)

Ltac by_cases_on_char c :=
  destruct c as [[] [] [] [] [] [] [] []]; vm_compute; intros;
  solve [reflexivity | discriminate | auto].

Section CharFacts.

Lemma upper_upper c : Char.upper (Char.upper c) = Char.upper c.
Proof. by_cases_on_char c. Qed.

Lemma upper_is_space c : Char.is_space (Char.upper c) = Char.is_space c.
Proof. by_cases_on_char c. Qed.

Lemma upper_is_separator c : is_separator (Char.upper c) = is_separator c.
Proof. by_cases_on_char c. Qed.

Lemma upper_is_zero c : is_zero (Char.upper c) = is_zero c.
Proof. by_cases_on_char c. Qed.

Lemma zero_not_space c : is_zero c = true -> Char.is_space c = false.
Proof. by_cases_on_char c. Qed.

Lemma zero_not_separator c : is_zero c = true -> is_separator c = false.
Proof. by_cases_on_char c. Qed.

Lemma is_zero_eq c : is_zero c = true -> c = "0"%char.
Proof. unfold is_zero. intros H. now apply Ascii.eqb_eq in H. Qed.

Lemma space_plain_is_separator c :
  Char.is_space c = true -> Ascii.eqb c " " = true -> is_separator c = true.
Proof. unfold is_separator. intros _ ->. reflexivity. Qed.

End CharFacts.

Section StrFacts.

Variables p q : ascii -> bool.

Lemma all_impl s :
  (forall c, p c = true -> q c = true) -> Str.all p s = true -> Str.all q s = true.
Proof.
  intros Hpq. induction s as [|c s IH]; simpl; [reflexivity|].
  intros [Hc Hs]%andb_prop. rewrite (Hpq c Hc). simpl. auto.
Qed.

Lemma all_drop n s : Str.all p s = true -> Str.all p (Str.drop n s) = true.
Proof.
  revert s. induction n as [|n IH]; intros [|c s]; simpl; auto.
  intros [_ Hs]%andb_prop. auto.
Qed.

Lemma filter_id s : Str.all p s = true -> Str.filter p s = s.
Proof.
  induction s as [|c s IH]; simpl; [reflexivity|].
  intros [-> Hs]%andb_prop. now rewrite IH.
Qed.

Lemma all_filter s : Str.all p (Str.filter p s) = true.
Proof.
  induction s as [|c s IH]; simpl; [reflexivity|].
  destruct (p c) eqn:Hc; simpl; [rewrite Hc|]; auto.
Qed.

Lemma all_filter_other s : Str.all q s = true -> Str.all q (Str.filter p s) = true.
Proof.
  induction s as [|c s IH]; simpl; [reflexivity|].
  intros [Hc Hs]%andb_prop. destruct (p c); simpl; [rewrite Hc|]; auto.
Qed.

Lemma filter_filter s :
  Str.filter q (Str.filter p s) = Str.filter (fun c => p c && q c) s.
Proof.
  induction s as [|c s IH]; simpl; [reflexivity|].
  destruct (p c); simpl; [destruct (q c)|]; now rewrite IH.
Qed.

Lemma filter_ext s :
  (forall c, p c = q c) -> Str.filter p s = Str.filter q s.
Proof.
  intros E. induction s as [|c s IH]; simpl; [reflexivity|]. now rewrite E, IH.
Qed.

(** Nothing to strip when no character of [s] is in the set. *)
Lemma lstrip_of_id s :
  Str.all (fun c => negb (p c)) s = true -> Str.lstrip_of p s = s.
Proof.
  destruct s as [|c s]; simpl; [reflexivity|].
  intros [Hc _]%andb_prop. now apply negb_true_iff in Hc as ->.
Qed.

Lemma rstrip_of_id s :
  Str.all (fun c => negb (p c)) s = true -> Str.rstrip_of p s = s.
Proof.
  induction s as [|c s IH]; simpl; [reflexivity|].
  intros [Hc Hs]%andb_prop. rewrite (IH Hs).
  apply negb_true_iff in Hc. rewrite Hc. now destruct s.
Qed.

Lemma strip_of_id s :
  Str.all (fun c => negb (p c)) s = true -> Str.strip_of p s = s.
Proof.
  intros H. unfold Str.strip_of. rewrite (rstrip_of_id s H). now apply lstrip_of_id.
Qed.

(** The text after the leading run of [p] does not start with a [p]. *)
Lemma span_drop_head s :
  match Str.drop (Str.span_length p s) s with
  | String c _ => p c = false
  | EmptyString => True
  end.
Proof.
  induction s as [|c s IH]; simpl; [exact I|].
  destruct (p c) eqn:Hc; simpl; [exact IH | exact Hc].
Qed.

(** One step back from the end of a non-empty run there is a [p]. *)
Lemma span_drop_pred s k :
  Str.span_length p s = S k ->
  exists c, p c = true /\ Str.drop k s = String c (Str.drop (S k) s).
Proof.
  revert k. induction s as [|c s IH]; simpl; [discriminate|].
  destruct (p c) eqn:Hc; [|discriminate].
  intros k [= Hk]. destruct k as [|k]; simpl.
  - exists c. now destruct s.
  - destruct (IH k Hk) as (d & Hd & E). exists d. split; [exact Hd|].
    rewrite E. now destruct s.
Qed.

Lemma span_length_head_false c s : p c = false -> Str.span_length p (String c s) = 0%nat.
Proof. simpl. now intros ->. Qed.

End StrFacts.

(** ** The key normalizer *)

Section NormalizerFacts.

(** The four [replace] calls delete exactly the separators. *)
Lemma remove_separators s :
  Str.remove "/" (Str.remove "_" (Str.remove "-" (Str.remove " " s)))
  = Str.filter not_separator s.
Proof.
  unfold Str.remove. rewrite !filter_filter. apply filter_ext.
  intros c. by_cases_on_char c.
Qed.

Lemma normalize_key_eq zs t :
  normalize_key zs t =
  Str.filter not_separator
    (Str.upper (if negb zs then strip_leading_zeros (Str.strip t) else Str.strip t)).
Proof. unfold normalize_key. apply remove_separators. Qed.

Lemma upper_filter (p : ascii -> bool) s :
  (forall c, p (Char.upper c) = p c) ->
  Str.filter p (Str.upper s) = Str.upper (Str.filter p s).
Proof.
  intros Hp. unfold Str.upper.
  induction s as [|c s IH]; simpl; [reflexivity|].
  rewrite Hp. destruct (p c); simpl; now rewrite IH.
Qed.

Lemma upper_idem s : Str.upper (Str.upper s) = Str.upper s.
Proof.
  unfold Str.upper. induction s as [|c s IH]; simpl; [reflexivity|].
  now rewrite upper_upper, IH.
Qed.

Lemma all_upper (p : ascii -> bool) s :
  (forall c, p (Char.upper c) = p c) ->
  Str.all p (Str.upper s) = Str.all p s.
Proof.
  intros Hp. unfold Str.upper.
  induction s as [|c s IH]; simpl; [reflexivity|]. now rewrite Hp, IH.
Qed.

Lemma not_separator_upper c : not_separator (Char.upper c) = not_separator c.
Proof. unfold not_separator. now rewrite upper_is_separator. Qed.

Lemma not_space_upper c : not_space (Char.upper c) = not_space c.
Proof. unfold not_space. now rewrite upper_is_space. Qed.

(** A token that does not start with a zero has no zeros to lose. *)
Lemma strip_leading_zeros_no_zero c s :
  is_zero c = false -> strip_leading_zeros (String c s) = String c s.
Proof.
  intros Hc. unfold strip_leading_zeros.
  rewrite (span_length_head_false is_zero c s Hc).
  now destruct (at_dollar (Str.drop 0 (String c s))).
Qed.

Lemma strip_leading_zeros_empty : strip_leading_zeros "" = "".
Proof. reflexivity. Qed.

(** The three shapes of the result, by what follows the leading zeros. *)
Lemma strip_leading_zeros_cases s :
  let k := Str.span_length is_zero s in
  let rest := Str.drop k s in
  (at_dollar rest = false /\ strip_leading_zeros s = rest)
  \/ (at_dollar rest = true /\ k = 0%nat /\ strip_leading_zeros s = s)
  \/ (at_dollar rest = true /\ strip_leading_zeros s = String "0" rest).
Proof.
  intros k rest. unfold strip_leading_zeros. fold k. fold rest.
  destruct (at_dollar rest) eqn:E; [right|left; auto].
  destruct k as [|k'] eqn:Hk; [left; auto|right].
  split; [reflexivity|]. simpl. rewrite Nat.sub_0_r.
  destruct (span_drop_pred is_zero s k' Hk) as (c & Hc & Hd).
  rewrite Hd. apply is_zero_eq in Hc. subst c. unfold rest. reflexivity.
Qed.

Lemma zeros_all_not_space k s :
  Str.all not_space s = true -> Str.all not_space (zeros k s) = true.
Proof. induction k; simpl; auto. Qed.

Lemma span_zeros k s :
  Str.span_length is_zero (zeros k s) = (k + Str.span_length is_zero s)%nat.
Proof. induction k; simpl; auto. Qed.

Lemma drop_zeros k n s : Str.drop (k + n) (zeros k s) = Str.drop n s.
Proof. induction k; simpl; auto. Qed.

(** Zeros put in front of a non-empty token without whitespace are
    stripped together with the token's own. *)
Lemma strip_leading_zeros_zeros k s :
  s <> "" -> Str.all not_space s = true ->
  strip_leading_zeros (zeros k s) = strip_leading_zeros s.
Proof.
  intros Hne Hs. unfold strip_leading_zeros.
  rewrite span_zeros, drop_zeros.
  set (n := Str.span_length is_zero s).
  destruct (at_dollar (Str.drop n s)) eqn:E; [|apply drop_zeros].
  destruct n as [|n'] eqn:Hn.
  - exfalso. simpl in E. destruct s as [|c [|d s']]; try discriminate; [congruence|].
    simpl in E, Hs. apply Ascii.eqb_eq in E. subst c. discriminate.
  - replace (k + S n' - 1)%nat with (k + n')%nat by lia.
    replace (S n' - 1)%nat with n' by lia. apply drop_zeros.
Qed.

End NormalizerFacts.

Section Idempotence.

Lemma all_span (p : ascii -> bool) s :
  Str.all p s = true -> Str.drop (Str.span_length p s) s = "".
Proof.
  induction s as [|c s IH]; simpl; [reflexivity|].
  intros [-> Hs]%andb_prop. simpl. auto.
Qed.

Lemma key_char_not_space c :
  plain_space c = true -> not_separator (Char.upper c) = true ->
  not_space (Char.upper c) = true.
Proof. by_cases_on_char c. Qed.

(** A key made from text whose only whitespace is the plain space has no
    whitespace left. *)
Lemma key_not_space u :
  Str.all plain_space u = true ->
  Str.all not_space (Str.filter not_separator (Str.upper u)) = true.
Proof.
  unfold Str.upper. induction u as [|c u IH]; simpl; [reflexivity|].
  intros [Hc Hu]%andb_prop.
  destruct (not_separator (Char.upper c)) eqn:E; simpl; auto.
  rewrite (key_char_not_space c Hc E). simpl. auto.
Qed.

(** Upper-casing and deleting separators a second time changes nothing. *)
Lemma key_fixed u :
  let r := Str.filter not_separator (Str.upper u) in
  Str.filter not_separator (Str.upper r) = r.
Proof.
  intros r. unfold r.
  rewrite <- (upper_filter not_separator (Str.upper u) not_separator_upper).
  rewrite upper_idem. apply filter_id, all_filter.
Qed.

Lemma plain_space_not_lf s :
  Str.all plain_space s = true -> at_dollar s = true -> s = "".
Proof.
  destruct s as [|c [|d s]]; simpl; try discriminate; [reflexivity|].
  rewrite andb_true_r. intros Hc E. apply Ascii.eqb_eq in E. subst c. discriminate.
Qed.

End Idempotence.


(** ** Claims about the key normalizer *)

(** C3, as the code has it: [normalize_key] applied twice gives the same key
    as applied once for every token whose whitespace, once trimmed, is plain
    spaces only and, when leading zeros are stripped ([ZERO_SIGNIFICANT] is
    off), whose leading zeros are not followed by a separator. *)
Theorem normalize_key_idempotent_on_regular_tokens (zs : bool) (t : string) :
  Str.all plain_space (Str.strip t) = true ->
  (zs = false -> after_zeros_ok (Str.strip t) = true) ->
  normalize_key zs (normalize_key zs t) = normalize_key zs t.
Proof.
  intros H1 H2.
  rewrite (normalize_key_eq zs (normalize_key zs t)).
  rewrite (normalize_key_eq zs t).
  set (s := Str.strip t) in *.
  set (u := if negb zs then strip_leading_zeros s else s).
  set (r := Str.filter not_separator (Str.upper u)).
  assert (Hu : Str.all plain_space u = true).
  { unfold u. destruct zs; simpl; [exact H1|].
    destruct (strip_leading_zeros_cases s) as [[_ ->]|[(_ & _ & ->)|[_ ->]]];
      [now apply all_drop | exact H1 | simpl; now apply all_drop]. }
  assert (Hr : Str.strip r = r).
  { apply strip_of_id. apply (key_not_space u Hu). }
  rewrite Hr.
  assert (Hz : negb zs = true -> strip_leading_zeros r = r).
  { intros Hzs. apply negb_true_iff in Hzs. specialize (H2 Hzs). subst zs.
    unfold r, u. simpl.
    destruct (strip_leading_zeros_cases s) as [[E ->]|[(E & K & ->)|[E ->]]].
    - unfold after_zeros_ok in H2.
      pose proof (span_drop_head is_zero s) as Hh.
      destruct (Str.drop (Str.span_length is_zero s) s) as [|c rest]; [discriminate|].
      unfold Str.upper. simpl.
      rewrite not_separator_upper, H2.
      apply strip_leading_zeros_no_zero. now rewrite upper_is_zero.
    - rewrite K in E. simpl in E.
      replace (Str.drop 0 s) with s in E by now destruct s.
      now rewrite (plain_space_not_lf s H1 E).
    - rewrite (plain_space_not_lf _ (all_drop plain_space _ s H1) E). reflexivity. }
  destruct (negb zs) eqn:Ezs.
  - rewrite (Hz eq_refl). apply key_fixed.
  - apply key_fixed.
Qed.

(** C3 witness: the token [" 007-ab "] with leading zeros stripped. *)
Lemma normalize_key_idempotent_on_regular_tokens_witness :
  Str.all plain_space (Str.strip " 007-ab ") = true /\
  after_zeros_ok (Str.strip " 007-ab ") = true /\
  normalize_key false (normalize_key false " 007-ab ") = normalize_key false " 007-ab ".
Proof.
  split; [reflexivity|]. split; [reflexivity|].
  apply (normalize_key_idempotent_on_regular_tokens false " 007-ab ");
    [reflexivity | intros _; reflexivity].
Defined.

(** C3 counterexample: with leading zeros stripped, ["-0a"] normalizes to
    ["0A"], which normalizes to ["A"]; with leading zeros kept, a TAB that
    the first pass exposes at the front is trimmed by the second. *)
Lemma normalize_key_not_idempotent :
  normalize_key false (normalize_key false "-0a") <> normalize_key false "-0a"
  /\ normalize_key true (normalize_key true (String "-" (String "009" "a")))
     <> normalize_key true (String "-" (String "009" "a")).
Proof. split; vm_compute; discriminate. Qed.

(** C7: with leading zeros stripped ([ZERO_SIGNIFICANT] off), a non-empty
    token made of zeros only normalizes to the one-digit key ["0"], which is
    not the empty string. *)
Theorem all_zero_token_keeps_one_digit (t : string) :
  t <> "" -> Str.all is_zero t = true ->
  normalize_key false t = "0" /\ normalize_key false t <> "".
Proof.
  intros Hne Hz.
  assert (E : normalize_key false t = "0"); [|split; [exact E | now rewrite E]].
  rewrite normalize_key_eq. simpl negb. cbv iota.
  assert (Hs : Str.strip t = t).
  { apply strip_of_id. revert Hz. apply all_impl.
    intros c Hc. now rewrite (zero_not_space c Hc). }
  rewrite Hs.
  pose proof (all_span is_zero t Hz) as Hd.
  destruct (strip_leading_zeros_cases t) as [[E _]|[(_ & K & _)|[_ ->]]].
  - rewrite Hd in E. discriminate.
  - destruct t as [|c t]; [congruence|]. simpl in K, Hz.
    apply andb_prop in Hz as [Hc _]. rewrite Hc in K. discriminate.
  - rewrite Hd. reflexivity.
Qed.

(** C7 witness: the token ["0000"]. *)
Lemma all_zero_token_keeps_one_digit_witness :
  normalize_key false "0000" = "0" /\ normalize_key false "0000" <> "".
Proof.
  apply (all_zero_token_keeps_one_digit "0000"); [discriminate | reflexivity].
Defined.

(** C4, as the code has it: the one setting is [ZERO_SIGNIFICANT], off by
    default. With the default, zeros in front of a token are dropped: they do
    not change its key. With the setting on they are kept in the key. (The
    token is any non-empty text without whitespace.) *)
Theorem leading_zeros_dropped_unless_significant (k : nat) (body : string) :
  body <> "" -> Str.all not_space body = true ->
  ZERO_SIGNIFICANT_default = false
  /\ normalize_key ZERO_SIGNIFICANT_default (zeros k body)
     = normalize_key ZERO_SIGNIFICANT_default body
  /\ normalize_key true (zeros k body) = zeros k (normalize_key true body).
Proof.
  intros Hne Hb. split; [reflexivity|].
  assert (Hs : forall j, Str.strip (zeros j body) = zeros j body).
  { intros j. apply strip_of_id. now apply (zeros_all_not_space j body). }
  unfold ZERO_SIGNIFICANT_default. rewrite !normalize_key_eq. simpl negb. cbv iota.
  pose proof (Hs 0%nat) as H0. simpl in H0. rewrite (Hs k), H0. split.
  - now rewrite strip_leading_zeros_zeros.
  - unfold Str.upper. induction k as [|k IH]; simpl; [reflexivity|]. now rewrite IH.
Qed.

(** C4 witness: two zeros in front of ["7a"]. *)
Lemma leading_zeros_dropped_unless_significant_witness :
  ZERO_SIGNIFICANT_default = false
  /\ normalize_key ZERO_SIGNIFICANT_default "007a"
     = normalize_key ZERO_SIGNIFICANT_default "7a"
  /\ normalize_key true "007a" = String "0" (String "0" (normalize_key true "7a")).
Proof.
  apply (leading_zeros_dropped_unless_significant 2 "7a"); [discriminate | reflexivity].
Defined.

(** C4 counterexample: under the default setting the leading zeros of
    ["007"] are dropped, the key is ["7"]. *)
Lemma default_setting_drops_leading_zeros :
  normalize_key ZERO_SIGNIFICANT_default "007" = "7"
  /\ normalize_key ZERO_SIGNIFICANT_default "007" <> "007".
Proof. split; vm_compute; [reflexivity | discriminate]. Qed.

(** ** Claims about the vendor mapping *)

(** C8: a row whose vendor cell, trimmed, is empty, ["nan"] or ["None"]
    leaves the mapping as it was, whatever its key cells hold; the mapping
    built from a sheet is the one built without that row. *)
Theorem blank_vendor_row_contributes_nothing
  (zs : bool) (vendor_col : string) (key_cols : list string)
  (row : gmap string cell) :
  str_in (Str.strip (py_str (row_getitem row vendor_col))) [""; "nan"; "None"] = true ->
  (forall mapping, add_row zs vendor_col key_cols mapping row = mapping)
  /\ (forall before after,
        build_mapping zs vendor_col key_cols (before ++ row :: after)
        = build_mapping zs vendor_col key_cols (before ++ after)).
Proof.
  intros Hblank.
  assert (Hrow : forall mapping, add_row zs vendor_col key_cols mapping row = mapping).
  { intros mapping. unfold add_row. now rewrite Hblank. }
  split; [exact Hrow|].
  intros before after. unfold build_mapping.
  rewrite !fold_left_app. simpl. now rewrite Hrow.
Qed.

(** C8 witness: a row with an empty vendor cell and a populated SKU cell,
    between two rows of vendor Acme. *)
Lemma blank_vendor_row_contributes_nothing_witness :
  str_in (Str.strip (py_str (row_getitem
            {[ "Vendor" := CellNaN; "SKU" := CellText "ABC-123" ]} "Vendor")))
         [""; "nan"; "None"] = true
  /\ add_row false "Vendor" ["SKU"] ∅
       {[ "Vendor" := CellNaN; "SKU" := CellText "ABC-123" ]} = ∅
  /\ build_mapping false "Vendor" ["SKU"]
       ([ {[ "Vendor" := CellText "Acme"; "SKU" := CellText "A-1" ]} ]
        ++ {[ "Vendor" := CellNaN; "SKU" := CellText "ABC-123" ]}
        :: [ {[ "Vendor" := CellText "Acme"; "SKU" := CellText "A-2" ]} ])
     = build_mapping false "Vendor" ["SKU"]
         ([ {[ "Vendor" := CellText "Acme"; "SKU" := CellText "A-1" ]} ]
          ++ [ {[ "Vendor" := CellText "Acme"; "SKU" := CellText "A-2" ]} ]).
Proof.
  assert (Hblank : str_in (Str.strip (py_str (row_getitem
            {[ "Vendor" := CellNaN; "SKU" := CellText "ABC-123" ]} "Vendor")))
         [""; "nan"; "None"] = true) by reflexivity.
  split; [exact Hblank|].
  destruct (blank_vendor_row_contributes_nothing false "Vendor" ["SKU"] _ Hblank)
    as [Hrow Hbuild].
  split; [apply Hrow | apply Hbuild].
Defined.

(** C10: ["---"] normalizes to the empty key under either setting, and
    ["0--"] does when leading zeros are stripped; a key cell ["---"] puts the
    empty key into the mapping; a page that reads ["SKU: 0--"] then yields the
    candidate ["0--"], which matches that entry and routes the page. *)
Theorem empty_key_resolves_to_vendor :
  let row : gmap string cell := {[ "Vendor" := CellText "Acme"; "SKU" := CellText "---" ]} in
  let mapping := build_mapping false "Vendor" ["SKU"] [row] in
  (normalize_key true "---" = "" /\ normalize_key false "---" = ""
   /\ normalize_key false "0--" = "")
  /\ mapping !! "" = Some "Acme"
  /\ extract_candidates (Some "SKU: 0--") = [("SKU", "0--")]
  /\ page_matches false mapping (dom mapping) [("SKU", "0--")]
     = [ {| m_raw := "0--"; m_nz := ""; m_vendor := "Acme"; m_label := "SKU";
            m_method := "native"; m_score := score_of "SKU" |} ]
  /\ vendor_writers
       (process_page false mapping (dom mapping) "Depot" "po.pdf" initial_state 0 (Text "SKU: 0--"))
     !! "Acme" = Some [("po.pdf", 0%nat)].
Proof. vm_compute. repeat split; reflexivity. Qed.

(** ** The page classifier *)

Section ClassifierFacts.

Variable zs : bool.
Variable mapping : gmap string string.

Lemma match_candidate_resolve (c : candidate) :
  match_candidate zs mapping (dom mapping) c = option_list (resolve zs mapping c).
Proof.
  destruct c as [label raw]. unfold match_candidate, resolve. simpl.
  destruct (mapping !! normalize_key zs raw) as [v|] eqn:E; simpl.
  - rewrite bool_decide_eq_true_2 by (apply elem_of_dom; eauto).
    now rewrite (lookup_total_correct _ _ _ E).
  - rewrite bool_decide_eq_false_2; [reflexivity|].
    intros [v Hv]%elem_of_dom. congruence.
Qed.

(** The matches are the candidates whose key is in the mapping, in order. *)
Lemma page_matches_resolve (cands : list candidate) :
  page_matches zs mapping (dom mapping) cands = omap (resolve zs mapping) cands.
Proof.
  unfold page_matches. induction cands as [|c cands IH]; simpl; [reflexivity|].
  rewrite match_candidate_resolve, IH. now destruct (resolve zs mapping c).
Qed.

Lemma page_matches_score (cands : list candidate) (m : vendor_match) :
  m ∈ page_matches zs mapping (dom mapping) cands ->
  m_score m = score_of (m_label m)
  /\ mapping !! m_nz m = Some (m_vendor m)
  /\ (m_label m, m_raw m) ∈ cands
  /\ m_nz m = normalize_key zs (m_raw m).
Proof.
  rewrite page_matches_resolve. intros ([label raw] & Hc & Hr)%list_elem_of_omap.
  unfold resolve in Hr. simpl in Hr.
  destruct (mapping !! normalize_key zs raw) as [v|] eqn:E; [|discriminate].
  injection Hr as <-. simpl. auto.
Qed.

End ClassifierFacts.

Section VendorSetFacts.

Lemma page_vendors_distinct matches :
  page_vendors matches = elements (distinct_vendors matches).
Proof. reflexivity. Qed.

Lemma size_distinct_vendors matches :
  size (distinct_vendors matches) = length (page_vendors matches).
Proof. reflexivity. Qed.

Lemma page_vendors_single matches v :
  page_vendors matches = [v] -> distinct_vendors matches = {[ v ]}.
Proof.
  rewrite page_vendors_distinct. intros E. apply set_eq. intros x.
  rewrite <- elem_of_elements, E, list_elem_of_singleton, elem_of_singleton.
  reflexivity.
Qed.

Lemma page_vendors_single_all matches v m :
  page_vendors matches = [v] -> m ∈ matches -> m_vendor m = v.
Proof.
  intros E Hm. apply page_vendors_single in E.
  assert (H : m_vendor m ∈ distinct_vendors matches).
  { unfold distinct_vendors. apply elem_of_list_to_set, list_elem_of_fmap. eauto. }
  rewrite E in H. set_solver.
Qed.

Lemma page_vendors_nil matches : page_vendors matches = [] -> matches = [].
Proof.
  rewrite page_vendors_distinct. intros E%elements_empty_inv.
  destruct matches as [|m ms]; [reflexivity|]. exfalso.
  assert (H : m_vendor m ∈ distinct_vendors (m :: ms)).
  { unfold distinct_vendors. simpl. set_solver. }
  rewrite E in H. set_solver.
Qed.

Lemma page_vendors_of_nil : page_vendors [] = [].
Proof. unfold page_vendors. simpl. apply elements_empty. Qed.

(** Two distinct vendors need two matches. *)
Lemma size_list_to_set_le (l : list string) :
  (size (list_to_set l : gset string) <= length l)%nat.
Proof.
  induction l as [|x l IH].
  - rewrite list_to_set_nil, size_empty. reflexivity.
  - rewrite list_to_set_cons, size_union_alt, size_singleton. simpl length.
    pose proof (subseteq_size (list_to_set l ∖ {[x]} : gset string) (list_to_set l)) as H.
    assert (Hs : (list_to_set l ∖ {[x]} : gset string) ⊆ list_to_set l)
      by (apply subseteq_difference_l; reflexivity).
    specialize (H Hs). lia.
Qed.

Lemma page_vendors_length matches :
  (length (page_vendors matches) <= length matches)%nat.
Proof.
  rewrite <- size_distinct_vendors. unfold distinct_vendors.
  rewrite <- (length_fmap m_vendor matches). apply size_list_to_set_le.
Qed.

End VendorSetFacts.

(** ** The routing loop *)

Section RoutingFacts.

Variable zs : bool.
Variable mapping : gmap string string.
Variable keyset : gset string.
Variables store_key name : string.
Variable st : run_state.
Variable i : nat.

Lemma route_unmatched cands :
  page_vendors (page_matches zs mapping keyset cands) = [] ->
  route_candidates zs mapping keyset store_key name st i cands
  = {| vendor_writers := vendor_writers st;
       mixed_dir := mixed_dir st;
       unmatched_dir := unmatched_dir st ++ [(page_file_name name i, [(name, i)])];
       logs := logs st ++ [blank_log store_key name i "UNMATCHED"] |}.
Proof. intros E. unfold route_candidates. now rewrite E. Qed.

Lemma route_mixed cands :
  (2 <= length (page_vendors (page_matches zs mapping keyset cands)))%nat ->
  route_candidates zs mapping keyset store_key name st i cands
  = {| vendor_writers := vendor_writers st;
       mixed_dir := mixed_dir st ++ [(page_file_name name i, [(name, i)])];
       unmatched_dir := unmatched_dir st;
       logs := logs st ++ [blank_log store_key name i "MIXED"] |}.
Proof.
  intros E. unfold route_candidates.
  destruct (page_vendors (page_matches zs mapping keyset cands)) as [|v [|w l]];
    simpl in E; [lia | lia | reflexivity].
Qed.

Lemma route_single cands v :
  page_vendors (page_matches zs mapping keyset cands) = [v] ->
  route_candidates zs mapping keyset store_key name st i cands
  = {| vendor_writers := writer_add_page v (name, i) (vendor_writers st);
       mixed_dir := mixed_dir st;
       unmatched_dir := unmatched_dir st;
       logs := logs st ++
         [ {| store := store_key; source_pdf := name; page_index := pretty i;
              vendor := v;
              raw_token := best_field (best_match (page_matches zs mapping keyset cands)) m_raw "";
              normalized := best_field (best_match (page_matches zs mapping keyset cands)) m_nz "";
              anchor := best_field (best_match (page_matches zs mapping keyset cands)) m_label "";
              method := best_field (best_match (page_matches zs mapping keyset cands)) m_method "";
              confidence := best_field (best_match (page_matches zs mapping keyset cands))
                                       (fun b => format_2f (m_score b)) "0.00" |} ] |}.
Proof. intros E. unfold route_candidates. now rewrite E. Qed.

(** Whatever the candidates, the body takes one of the three branches. *)
Lemma route_candidates_branch cands :
  let st' := route_candidates zs mapping keyset store_key name st i cands in
  let n := length (page_vendors (page_matches zs mapping keyset cands)) in
  (n = 0%nat /\ written_to_unmatched st st' (page_file_name name i) (name, i)
   /\ logged_as st st' "UNMATCHED")
  \/ (exists v, page_vendors (page_matches zs mapping keyset cands) = [v]
        /\ added_to_vendor v st st' (name, i) /\ logged_as st st' v)
  \/ ((2 <= n)%nat /\ written_to_mixed st st' (page_file_name name i) (name, i)
      /\ logged_as st st' "MIXED").
Proof.
  intros st' n. subst st' n.
  destruct (page_vendors (page_matches zs mapping keyset cands)) as [|v [|w l]] eqn:E.
  - left. rewrite (route_unmatched cands E).
    repeat split; simpl; eexists; split; reflexivity.
  - right; left. exists v. rewrite (route_single cands v E).
    repeat split; simpl; eexists; split; reflexivity.
  - right; right. rewrite (route_mixed cands) by (rewrite E; simpl; lia).
    repeat split; simpl; try lia; eexists; split; reflexivity.
Qed.

End RoutingFacts.

Section WriterFacts.

Lemma writer_pages_insert v w (writers : gmap string (list page_ref)) :
  writers !! v = None ->
  writer_pages (<[v := w]> writers) = (length w + writer_pages writers)%nat.
Proof.
  intros Hv. unfold writer_pages.
  rewrite map_fold_insert_L; [reflexivity | intros; lia | exact Hv].
Qed.

Lemma writer_pages_delete v w (writers : gmap string (list page_ref)) :
  writers !! v = Some w ->
  writer_pages writers = (length w + writer_pages (delete v writers))%nat.
Proof.
  intros Hv. unfold writer_pages.
  rewrite (map_fold_delete_L _ _ v w writers); [reflexivity | intros; lia | exact Hv].
Qed.

(** [add_page] on the writer of [v] adds one page to the vendor writers. *)
Lemma writer_pages_add v pg (writers : gmap string (list page_ref)) :
  writer_pages (writer_add_page v pg writers) = S (writer_pages writers).
Proof.
  unfold writer_add_page, ensure_writer.
  destruct (writers !! v) as [w|] eqn:Hv.
  - rewrite <- (insert_delete_id writers v w Hv) at 1.
    rewrite alter_insert_eq.
    rewrite writer_pages_insert by apply lookup_delete_eq.
    rewrite (writer_pages_delete v w writers Hv), length_app. simpl. lia.
  - rewrite alter_insert_eq, writer_pages_insert by exact Hv. reflexivity.
Qed.

Lemma writer_add_page_lookup v pg (writers : gmap string (list page_ref)) :
  writer_add_page v pg writers !! v = Some (default [] (writers !! v) ++ [pg]).
Proof.
  unfold writer_add_page, ensure_writer.
  destruct (writers !! v) as [w|] eqn:Hv; rewrite lookup_alter_eq.
  - now rewrite Hv.
  - now rewrite lookup_insert_eq.
Qed.

Lemma writer_add_page_lookup_ne v v' pg (writers : gmap string (list page_ref)) :
  v <> v' -> writer_add_page v pg writers !! v' = writers !! v'.
Proof.
  intros Hne. unfold writer_add_page, ensure_writer.
  rewrite lookup_alter_ne by exact Hne.
  destruct (writers !! v); [reflexivity | now rewrite lookup_insert_ne].
Qed.

Lemma writer_add_page_changes v pg (writers : gmap string (list page_ref)) :
  writer_add_page v pg writers <> writers.
Proof.
  intros E. pose proof (writer_pages_add v pg writers) as H. rewrite E in H. lia.
Qed.

Lemma app_one_changes {A} (l : list A) (x : A) : l ++ [x] <> l.
Proof.
  intros E. apply (f_equal length) in E. rewrite length_app in E. simpl in E. lia.
Qed.

End WriterFacts.

Section RunFacts.

Variable zs : bool.
Variable mapping : gmap string string.
Variable keyset : gset string.
Variable store_key : string.

Lemma process_page_counts name st i page :
  length (logs (process_page zs mapping keyset store_key name st i page))
  = S (length (logs st))
  /\ routed_pages (process_page zs mapping keyset store_key name st i page)
     = S (routed_pages st).
Proof.
  unfold process_page.
  destruct (route_candidates_branch zs mapping keyset store_key name st i
              (extract_candidates (Some (page_text page))))
    as [(_ & (Hw & Hm & Hu) & (r & Hl & _))
       |[(v & _ & (Hw & Hm & Hu) & (r & Hl & _))
        |(_ & (Hw & Hm & Hu) & (r & Hl & _))]];
    unfold routed_pages; rewrite Hl, Hw, Hm, Hu, ?writer_pages_add, !length_app;
    simpl; lia.
Qed.

Lemma process_pages_counts name (pages : list (nat * extraction)) st :
  let st' := fold_left (fun st '(i, page) =>
                          process_page zs mapping keyset store_key name st i page)
                       pages st in
  length (logs st') = (length (logs st) + length pages)%nat
  /\ routed_pages st' = (routed_pages st + length pages)%nat.
Proof.
  revert st. induction pages as [|[i page] pages IH]; intros st; simpl.
  - lia.
  - destruct (IH (process_page zs mapping keyset store_key name st i page)) as [Hl Hr].
    destruct (process_page_counts name st i page) as [Hl1 Hr1].
    rewrite Hl, Hr, Hl1, Hr1. lia.
Qed.

Lemma length_enumerate {A} (l : list A) : length (enumerate l) = length l.
Proof. unfold enumerate. rewrite length_combine, length_seq. lia. Qed.

Lemma process_pdf_counts st f :
  length (logs (process_pdf zs mapping keyset store_key st f))
  = (length (logs st) + pdf_page_count f)%nat
  /\ routed_pages (process_pdf zs mapping keyset store_key st f)
     = (routed_pages st + pdf_page_count f)%nat.
Proof.
  unfold process_pdf, pdf_page_count. destruct (pdf_reader f) as [pages|].
  - rewrite <- (length_enumerate pages). apply process_pages_counts.
  - lia.
Qed.

Lemma total_pages_cons f pdfs :
  total_pages (f :: pdfs) = (pdf_page_count f + total_pages pdfs)%nat.
Proof. reflexivity. Qed.

Lemma process_pdfs_counts pdfs st :
  let st' := fold_left (process_pdf zs mapping keyset store_key) pdfs st in
  length (logs st') = (length (logs st) + total_pages pdfs)%nat
  /\ routed_pages st' = (routed_pages st + total_pages pdfs)%nat.
Proof.
  revert st. induction pdfs as [|f pdfs IH]; intros st.
  - unfold total_pages. simpl. lia.
  - rewrite total_pages_cons. cbn [fold_left].
    destruct (IH (process_pdf zs mapping keyset store_key st f)) as [Hl Hr].
    destruct (process_pdf_counts st f) as [Hl1 Hr1].
    rewrite Hl, Hr, Hl1, Hr1. lia.
Qed.

End RunFacts.

(** ** Claims about the page classifier and the routing loop *)

(** C1: the matches of a page are its candidates whose key is in the
    mapping, and the number of distinct vendors among them decides the
    branch: none, the page goes to the unmatched files and is logged
    UNMATCHED; one, the page is put at the end of that vendor's writer (a
    new writer holding just the page when the vendor had none), every other
    writer and both error directories are left as they are, and the page is
    logged under the vendor; two or more, the page goes to the mixed files,
    is logged MIXED and no vendor writer changes. The file of an unmatched
    or mixed page is named by the safe name of the PDF, ["_p"], the page
    number counted from one and [".pdf"]. *)
Theorem decision_by_distinct_vendor_count
  (zs : bool) (mapping : gmap string string) (store_key name : string)
  (st : run_state) (i : nat) (page : extraction) :
  page_matches zs mapping (dom mapping) (page_candidates page)
  = omap (resolve zs mapping) (page_candidates page)
  /\ match size (distinct_vendors (omap (resolve zs mapping) (page_candidates page))) with
     | 0%nat =>
         written_to_unmatched st
           (process_page zs mapping (dom mapping) store_key name st i page)
           (safe_name name +:+ "_p" +:+ pretty (i + 1)%nat +:+ ".pdf") (name, i)
         /\ logged_as st
              (process_page zs mapping (dom mapping) store_key name st i page)
              "UNMATCHED"
     | 1%nat =>
         exists v,
           distinct_vendors (omap (resolve zs mapping) (page_candidates page)) = {[ v ]}
           /\ vendor_writers
                (process_page zs mapping (dom mapping) store_key name st i page) !! v
              = Some (default [] (vendor_writers st !! v) ++ [(name, i)])
           /\ (forall v', v' <> v ->
                 vendor_writers
                   (process_page zs mapping (dom mapping) store_key name st i page) !! v'
                 = vendor_writers st !! v')
           /\ mixed_dir (process_page zs mapping (dom mapping) store_key name st i page)
              = mixed_dir st
           /\ unmatched_dir (process_page zs mapping (dom mapping) store_key name st i page)
              = unmatched_dir st
           /\ logged_as st
                (process_page zs mapping (dom mapping) store_key name st i page) v
     | _ =>
         written_to_mixed st
           (process_page zs mapping (dom mapping) store_key name st i page)
           (safe_name name +:+ "_p" +:+ pretty (i + 1)%nat +:+ ".pdf") (name, i)
         /\ vendor_writers
              (process_page zs mapping (dom mapping) store_key name st i page)
            = vendor_writers st
         /\ logged_as st
              (process_page zs mapping (dom mapping) store_key name st i page)
              "MIXED"
     end.
Proof.
  split; [apply page_matches_resolve|].
  rewrite <- page_matches_resolve, size_distinct_vendors.
  unfold process_page. fold (page_candidates page).
  destruct (route_candidates_branch zs mapping (dom mapping) store_key name st i
              (page_candidates page))
    as [(E & Hu & Hl)|[(v & E & (Hw & Hm & Hu) & Hl)|(E & Hm & Hl)]].
  - rewrite E. auto.
  - rewrite E. simpl. exists v. split; [now apply page_vendors_single|].
    rewrite Hw. split; [apply writer_add_page_lookup|].
    split; [|auto].
    intros v' Hne. apply writer_add_page_lookup_ne. congruence.
  - destruct (length (page_vendors (page_matches zs mapping (dom mapping)
                                      (page_candidates page)))) as [|[|n]];
      [lia | lia |].
    split; [exact Hm|]. split; [apply Hm | exact Hl].
Qed.

(** The actions of the loop, counted as they are made: the loop body does
    exactly one of three things with a page (adds it to one vendor writer,
    makes one write under [errors/mixed], makes one write under
    [errors/unmatched]) and appends one log record; over a run, the log has
    as many records as pages were processed, and as many additions and
    writes were made. This counts writes, not the files that are on disk
    afterwards: see [dir_files]. *)
Lemma every_page_acted_on_and_logged_once
  (zs : bool) (mapping : gmap string string) (store_key : string) :
  (forall keyset name st i page,
     exactly_one
       (exists v, added_to_vendor v st
                    (process_page zs mapping keyset store_key name st i page) (name, i))
       (written_to_mixed st
          (process_page zs mapping keyset store_key name st i page)
          (page_file_name name i) (name, i))
       (written_to_unmatched st
          (process_page zs mapping keyset store_key name st i page)
          (page_file_name name i) (name, i))
     /\ exists r,
          logs (process_page zs mapping keyset store_key name st i page)
          = logs st ++ [r])
  /\ (forall pdfs,
        length (logs (route_pages zs mapping store_key pdfs)) = total_pages pdfs
        /\ routed_pages (route_pages zs mapping store_key pdfs) = total_pages pdfs).
Proof.
  split.
  - intros keyset name st i page. unfold process_page.
    set (st' := route_candidates zs mapping keyset store_key name st i
                  (extract_candidates (Some (page_text page)))).
    assert (Hex : ~ ((exists v, added_to_vendor v st st' (name, i))
                     /\ written_to_mixed st st' (page_file_name name i) (name, i))
                  /\ ~ ((exists v, added_to_vendor v st st' (name, i))
                        /\ written_to_unmatched st st' (page_file_name name i) (name, i))
                  /\ ~ (written_to_mixed st st' (page_file_name name i) (name, i)
                        /\ written_to_unmatched st st' (page_file_name name i) (name, i))).
    { repeat split.
      - intros [(v & _ & Hm & _) (_ & Hm' & _)]. rewrite Hm in Hm'.
        symmetry in Hm'. now apply app_one_changes in Hm'.
      - intros [(v & _ & _ & Hu) (_ & _ & Hu')]. rewrite Hu in Hu'.
        symmetry in Hu'. now apply app_one_changes in Hu'.
      - intros [(_ & Hm & _) (_ & Hm' & _)]. rewrite Hm' in Hm.
        symmetry in Hm. now apply app_one_changes in Hm. }
    destruct (route_candidates_branch zs mapping keyset store_key name st i
                (extract_candidates (Some (page_text page))))
      as [(_ & Hu & (r & Hl & _))|[(v & _ & Hv & (r & Hl & _))|(_ & Hm & (r & Hl & _))]];
      fold st' in Hl; (split; [split; [|exact Hex] | now exists r]).
    + right; right. exact Hu.
    + left. now exists v.
    + right; left. exact Hm.
  - intros pdfs. unfold route_pages.
    destruct (process_pdfs_counts zs mapping (dom mapping) store_key pdfs initial_state)
      as [Hl Hr].
    rewrite Hl, Hr. split; reflexivity.
Qed.

(** C6: the extractor returns no candidate for [None] and for the empty
    text; a page whose text is empty, as it is when [extract_text] raises or
    returns nothing, is written under [errors/unmatched] and logged
    UNMATCHED with blank fields. *)
Theorem empty_text_is_unmatched
  (zs : bool) (mapping : gmap string string) (keyset : gset string)
  (store_key name : string) (st : run_state) (i : nat) (page : extraction) :
  page_text page = "" ->
  (extract_candidates None = [] /\ extract_candidates (Some "") = []
   /\ page_text Raises = "" /\ page_text NoText = "")
  /\ page_candidates page = []
  /\ process_page zs mapping keyset store_key name st i page
     = {| vendor_writers := vendor_writers st;
          mixed_dir := mixed_dir st;
          unmatched_dir := unmatched_dir st ++ [(page_file_name name i, [(name, i)])];
          logs := logs st ++ [blank_log store_key name i "UNMATCHED"] |}.
Proof.
  intros Htext. split; [repeat split|].
  unfold page_candidates, process_page. rewrite Htext. simpl extract_candidates.
  split; [reflexivity|].
  apply route_unmatched. apply page_vendors_of_nil.
Qed.

(** C6 witness: a page on which [extract_text] raises. *)
Lemma empty_text_is_unmatched_witness :
  page_text Raises = ""
  /\ process_page false ∅ ∅ "Depot" "po.pdf" initial_state 2 Raises
     = {| vendor_writers := ∅;
          mixed_dir := [];
          unmatched_dir := [("po_pdf_p3.pdf", [("po.pdf", 2%nat)])];
          logs := [blank_log "Depot" "po.pdf" 2 "UNMATCHED"] |}.
Proof.
  split; [reflexivity|].
  destruct (empty_text_is_unmatched false ∅ ∅ "Depot" "po.pdf" initial_state 2 Raises
              eq_refl) as (_ & _ & H).
  rewrite H. reflexivity.
Defined.

(** C9: when the distinct vendors of a page are not exactly one, the log
    record appended for it has empty raw_token, normalized, anchor and method
    fields and the confidence "0.00"; its vendor field is UNMATCHED when there
    is no vendor and MIXED when there are several, in which case the page has
    at least two matches, none of them in the record. *)
Theorem unrouted_page_log_is_blank
  (zs : bool) (mapping : gmap string string) (keyset : gset string)
  (store_key name : string) (st : run_state) (i : nat) (page : extraction) :
  length (page_vendors (page_matches zs mapping keyset (page_candidates page))) <> 1%nat ->
  logs (process_page zs mapping keyset store_key name st i page)
  = logs st ++
      [ {| store := store_key; source_pdf := name; page_index := pretty i;
           vendor :=
             match page_vendors (page_matches zs mapping keyset (page_candidates page)) with
             | [] => "UNMATCHED"
             | _ => "MIXED"
             end;
           raw_token := ""; normalized := ""; anchor := ""; method := "";
           confidence := "0.00" |} ]
  /\ (page_vendors (page_matches zs mapping keyset (page_candidates page)) <> [] ->
      (2 <= length (page_matches zs mapping keyset (page_candidates page)))%nat).
Proof.
  intros Hn. unfold process_page. fold (page_candidates page).
  pose proof (page_vendors_length (page_matches zs mapping keyset (page_candidates page)))
    as Hlen.
  destruct (page_vendors (page_matches zs mapping keyset (page_candidates page)))
    as [|v [|w l]] eqn:E.
  - rewrite (route_unmatched _ _ _ _ _ _ _ _ E). simpl. split; [reflexivity | congruence].
  - simpl in Hn. congruence.
  - rewrite route_mixed by (rewrite E; simpl; lia). simpl in *.
    split; [reflexivity | intros _; lia].
Qed.

(** C9 witness: a page with a Model number of vendor Acme and an Item number
    of vendor Beta. *)
Lemma unrouted_page_log_is_blank_witness :
  length (page_vendors
            (page_matches false {[ "ABC123" := "Acme"; "XYZ999" := "Beta" ]}
               {[ "ABC123"; "XYZ999" ]}
               (page_candidates (Text "Model #: ABC-123 Item# XYZ999")))) <> 1%nat
  /\ logs (process_page false {[ "ABC123" := "Acme"; "XYZ999" := "Beta" ]}
             {[ "ABC123"; "XYZ999" ]} "Depot" "po.pdf" initial_state 0
             (Text "Model #: ABC-123 Item# XYZ999"))
     = [ {| store := "Depot"; source_pdf := "po.pdf"; page_index := "0";
            vendor := "MIXED"; raw_token := ""; normalized := ""; anchor := "";
            method := ""; confidence := "0.00" |} ].
Proof.
  assert (Hn : length (page_vendors
            (page_matches false {[ "ABC123" := "Acme"; "XYZ999" := "Beta" ]}
               {[ "ABC123"; "XYZ999" ]}
               (page_candidates (Text "Model #: ABC-123 Item# XYZ999")))) <> 1%nat)
    by (vm_compute; discriminate).
  split; [exact Hn|].
  destruct (unrouted_page_log_is_blank false {[ "ABC123" := "Acme"; "XYZ999" := "Beta" ]}
              {[ "ABC123"; "XYZ999" ]} "Depot" "po.pdf" initial_state 0
              (Text "Model #: ABC-123 Item# XYZ999") Hn) as [H _].
  rewrite H. vm_compute. reflexivity.
Defined.

(** ** The best match *)

Section SortFacts.

Context {A : Type}.
Variable key : A -> Q.

Lemma insert_by_head x l :
  head (insert_by key x l)
  = match l with
    | [] => Some x
    | y :: _ => if Qle_bool (key x) (key y) then Some x else Some y
    end.
Proof. destruct l as [|y l]; simpl; [reflexivity|]. now destruct (Qle_bool (key x) (key y)). Qed.

(** The head of a stable ascending sort is the first element of least key:
    what comes before it in the input has a strictly greater key. *)
Lemma sorted_by_head l :
  l <> [] ->
  exists pre b post,
    l = pre ++ b :: post
    /\ head (sorted_by key l) = Some b
    /\ (forall x, x ∈ pre -> (key b < key x)%Q)
    /\ (forall x, x ∈ post -> (key b <= key x)%Q).
Proof.
  induction l as [|x l IH]; [congruence|]. intros _.
  destruct l as [|y l'].
  - exists [], x, []. repeat split; simpl; auto; intros z Hz; inversion Hz.
  - destruct IH as (pre & b & post & Hl & Hh & Hpre & Hpost); [congruence|].
    change (sorted_by key (x :: y :: l'))
      with (insert_by key x (sorted_by key (y :: l'))).
    rewrite insert_by_head.
    destruct (sorted_by key (y :: l')) as [|b' rest] eqn:Es; [discriminate|].
    injection Hh as ->.
    destruct (Qle_bool (key x) (key b)) eqn:Ex.
    + apply Qle_bool_iff in Ex.
      exists [], x, (y :: l'). repeat split; auto; [intros z Hz; inversion Hz|].
      intros z Hz. rewrite Hl in Hz.
      apply elem_of_app in Hz as [Hz|Hz].
      * apply Qlt_le_weak. eapply Qle_lt_trans; [exact Ex | now apply Hpre].
      * apply elem_of_cons in Hz as [->|Hz]; [exact Ex|].
        eapply Qle_trans; [exact Ex | now apply Hpost].
    + assert (Hlt : (key b < key x)%Q).
      { apply Qnot_le_lt. intros H. apply Qle_bool_iff in H. congruence. }
      exists (x :: pre), b, post. rewrite Hl. repeat split; auto.
      intros z Hz. apply elem_of_cons in Hz as [->|Hz]; [exact Hlt | now apply Hpre].
Qed.

End SortFacts.

Lemma Qopp_lt_cancel (a b : Q) : (- a < - b)%Q -> (b < a)%Q.
Proof.
  intros H. apply Qopp_lt_compat in H. now rewrite !Qopp_involutive in H.
Qed.

Lemma Qopp_le_cancel (a b : Q) : (- a <= - b)%Q -> (b <= a)%Q.
Proof.
  intros H. apply Qopp_le_compat in H. now rewrite !Qopp_involutive in H.
Qed.

(** The best match is the first match of greatest score. *)
Lemma best_match_first_greatest (matches : list vendor_match) :
  matches <> [] ->
  exists pre b post,
    matches = pre ++ b :: post
    /\ best_match matches = Some b
    /\ (forall m, m ∈ pre -> (m_score m < m_score b)%Q)
    /\ (forall m, m ∈ post -> (m_score m <= m_score b)%Q).
Proof.
  intros Hne.
  destruct (sorted_by_head (fun x => - m_score x)%Q matches Hne)
    as (pre & b & post & Hl & Hh & Hpre & Hpost).
  exists pre, b, post. repeat split; auto.
  - intros m Hm. now apply Qopp_lt_cancel, Hpre.
  - intros m Hm. now apply Qopp_le_cancel, Hpost.
Qed.

(** The score of a match goes with its label. *)
Lemma score_by_label (label : string) :
  (label = "Model" -> (score_of label == 1)%Q)
  /\ (label = "Item" -> (score_of label == 9 # 10)%Q)
  /\ (label = "Internet" -> (score_of label == 8 # 10)%Q)
  /\ (label = "SKU" -> (score_of label == 7 # 10)%Q)
  /\ (~ In label ["Model"; "Item"; "Internet"; "SKU"] -> (score_of label == 1 # 2)%Q).
Proof.
  repeat split; try (intros ->; reflexivity).
  intros Hn. unfold score_of.
  change order with ["Model"; "Item"; "Internet"; "SKU"]. cbn [list_index].
  destruct (String.eqb_spec "Model" label) as [<-|_]; [exfalso; apply Hn; simpl; auto|].
  destruct (String.eqb_spec "Item" label) as [<-|_]; [exfalso; apply Hn; simpl; auto|].
  destruct (String.eqb_spec "Internet" label) as [<-|_]; [exfalso; apply Hn; simpl; auto|].
  destruct (String.eqb_spec "SKU" label) as [<-|_]; [exfalso; apply Hn; simpl; auto|].
  reflexivity.
Qed.

(** C2: on a page with exactly one distinct vendor [v], every match names
    [v] and carries the score of its anchor label: 1 for Model, 0.9 for Item,
    0.8 for Internet, 0.7 for SKU, that is 1 - 0.1 * (position of the label
    in the list Model, Item, Internet, SKU), and 0.5 for a label that is not
    in the list; the match reported in the log is the first, in candidate
    order, among those of greatest score. *)
Theorem routed_page_reports_best_match
  (zs : bool) (mapping : gmap string string) (store_key name : string)
  (st : run_state) (i : nat) (cands : list candidate) (v : string) :
  page_vendors (page_matches zs mapping (dom mapping) cands) = [v] ->
  (forall m, m ∈ page_matches zs mapping (dom mapping) cands ->
     m_vendor m = v
     /\ (m_label m = "Model" -> (m_score m == 1)%Q)
     /\ (m_label m = "Item" -> (m_score m == 9 # 10)%Q)
     /\ (m_label m = "Internet" -> (m_score m == 8 # 10)%Q)
     /\ (m_label m = "SKU" -> (m_score m == 7 # 10)%Q)
     /\ (~ In (m_label m) ["Model"; "Item"; "Internet"; "SKU"] ->
         (m_score m == 1 # 2)%Q)
     /\ (forall k, nth_error ["Model"; "Item"; "Internet"; "SKU"] k = Some (m_label m) ->
           (m_score m == 1 - (1 # 10) * inject_Z (Z.of_nat k))%Q))
  /\ exists pre b post,
       page_matches zs mapping (dom mapping) cands = pre ++ b :: post
       /\ (forall m, m ∈ pre -> (m_score m < m_score b)%Q)
       /\ (forall m, m ∈ post -> (m_score m <= m_score b)%Q)
       /\ best_match (page_matches zs mapping (dom mapping) cands) = Some b
       /\ logs (route_candidates zs mapping (dom mapping) store_key name st i cands)
          = logs st ++ [match_log store_key name i v b].
Proof.
  intros E. split.
  - intros m Hm. split; [now apply (page_vendors_single_all _ v m E)|].
    destruct (page_matches_score zs mapping cands m Hm) as (-> & _).
    destruct (score_by_label (m_label m)) as (H0 & H1 & H2 & H3 & H4).
    repeat split; auto.
    intros k Hk.
    destruct k as [|[|[|[|k]]]]; simpl in Hk;
      [injection Hk as Hk; symmetry in Hk ..|destruct k; discriminate].
    + rewrite (H0 Hk). reflexivity.
    + rewrite (H1 Hk). reflexivity.
    + rewrite (H2 Hk). reflexivity.
    + rewrite (H3 Hk). reflexivity.
  - destruct (best_match_first_greatest (page_matches zs mapping (dom mapping) cands))
      as (pre & b & post & Hl & Hb & Hpre & Hpost).
    { intros Hnil. rewrite Hnil, page_vendors_of_nil in E. discriminate. }
    exists pre, b, post. repeat split; auto.
    rewrite (route_single _ _ _ _ _ _ _ _ _ E). simpl. now rewrite Hb.
Qed.

(** C2 witness: the candidates (Item, "XYZ999") and (Model, "ABC-123"), in
    this order and both of vendor Acme. The Item match comes first in the
    list and scores 0.9, the Model match scores 1; the reported match is the
    Model one, with confidence 1.00. *)
Lemma routed_page_reports_best_match_witness :
  page_vendors
    (page_matches false {[ "ABC123" := "Acme"; "XYZ999" := "Acme" ]}
       (dom ({[ "ABC123" := "Acme"; "XYZ999" := "Acme" ]} : gmap string string))
       [("Item", "XYZ999"); ("Model", "ABC-123")]) = ["Acme"]
  /\ (m_label <$>
        page_matches false {[ "ABC123" := "Acme"; "XYZ999" := "Acme" ]}
          (dom ({[ "ABC123" := "Acme"; "XYZ999" := "Acme" ]} : gmap string string))
          [("Item", "XYZ999"); ("Model", "ABC-123")]) = ["Item"; "Model"]
  /\ exists b,
       best_match
         (page_matches false {[ "ABC123" := "Acme"; "XYZ999" := "Acme" ]}
            (dom ({[ "ABC123" := "Acme"; "XYZ999" := "Acme" ]} : gmap string string))
            [("Item", "XYZ999"); ("Model", "ABC-123")]) = Some b
       /\ m_label b = "Model" /\ m_raw b = "ABC-123" /\ (m_score b == 1)%Q
       /\ logs (route_candidates false {[ "ABC123" := "Acme"; "XYZ999" := "Acme" ]}
                  (dom ({[ "ABC123" := "Acme"; "XYZ999" := "Acme" ]} : gmap string string))
                  "Depot" "po.pdf" initial_state 0
                  [("Item", "XYZ999"); ("Model", "ABC-123")])
          = [match_log "Depot" "po.pdf" 0 "Acme" b]
       /\ confidence (match_log "Depot" "po.pdf" 0 "Acme" b) = "1.00".
Proof.
  assert (E : page_vendors
    (page_matches false {[ "ABC123" := "Acme"; "XYZ999" := "Acme" ]}
       (dom ({[ "ABC123" := "Acme"; "XYZ999" := "Acme" ]} : gmap string string))
       [("Item", "XYZ999"); ("Model", "ABC-123")]) = ["Acme"])
    by (vm_compute; reflexivity).
  split; [exact E|]. split; [vm_compute; reflexivity|].
  destruct (routed_page_reports_best_match false
              {[ "ABC123" := "Acme"; "XYZ999" := "Acme" ]} "Depot" "po.pdf"
              initial_state 0 [("Item", "XYZ999"); ("Model", "ABC-123")] "Acme" E)
    as (_ & pre & b & post & _ & _ & _ & Hb & Hlog).
  exists b. split; [exact Hb|].
  vm_compute in Hb. injection Hb as <-.
  split; [reflexivity|]. split; [reflexivity|]. split; [reflexivity|].
  split; [exact Hlog | vm_compute; reflexivity].
Defined.

(** The example of the two Acme candidates, in either order: the best match
    is the Model one. *)
Example acme_best_match_in_either_order :
  (m_label <$> best_match
     (page_matches false {[ "ABC123" := "Acme"; "XYZ999" := "Acme" ]}
        (dom ({[ "ABC123" := "Acme"; "XYZ999" := "Acme" ]} : gmap string string))
        [("Model", "ABC-123"); ("Item", "XYZ999")])) = Some "Model"
  /\ (m_label <$> best_match
        (page_matches false {[ "ABC123" := "Acme"; "XYZ999" := "Acme" ]}
           (dom ({[ "ABC123" := "Acme"; "XYZ999" := "Acme" ]} : gmap string string))
           [("Item", "XYZ999"); ("Model", "ABC-123")])) = Some "Model".
Proof. split; vm_compute; reflexivity. Qed.

(** ** Candidate order on a page

    The extractor lists its candidates anchor by anchor, in the order of
    [ANCHOR_PATTERNS]; the scores of the matches therefore never increase
    along the list, and the best match of a page is its first match. *)

Section PageOrder.

Variable zs : bool.
Variable mapping : gmap string string.

Lemma extract_candidates_by_anchor (text : option string) :
  exists c1 c2 c3 c4,
    extract_candidates text = c1 ++ c2 ++ c3 ++ c4
    /\ Forall (fun c => c.1 = "Model") c1
    /\ Forall (fun c => c.1 = "Item") c2
    /\ Forall (fun c => c.1 = "Internet") c3
    /\ Forall (fun c => c.1 = "SKU") c4.
Proof.
  destruct text as [[|a s]|]; try (exists [], [], [], []; repeat split; constructor).
  unfold extract_candidates.
  set (joined := Str.replace1 "010" " " (Str.replace1 "013" " " (String a s))).
  unfold ANCHOR_PATTERNS. cbn [flat_map]. rewrite app_nil_r.
  eexists _, _, _, _. split; [reflexivity|].
  repeat split; apply List.Forall_forall; intros c Hc;
    apply in_map_iff in Hc as (g & <- & _); reflexivity.
Qed.

Lemma page_matches_app (c1 c2 : list candidate) :
  page_matches zs mapping (dom mapping) (c1 ++ c2)
  = page_matches zs mapping (dom mapping) c1 ++ page_matches zs mapping (dom mapping) c2.
Proof. unfold page_matches. apply flat_map_app. Qed.

Lemma page_matches_one_label (label : string) (cands : list candidate) :
  Forall (fun c => c.1 = label) cands ->
  Forall (fun m => m_score m = score_of label)
         (page_matches zs mapping (dom mapping) cands).
Proof.
  intros Hc. apply Forall_forall. intros m Hm.
  destruct (page_matches_score zs mapping cands m Hm) as (-> & _ & Hin & _).
  rewrite Forall_forall in Hc. now rewrite <- (Hc _ Hin).
Qed.

Lemma by_priority_chunk (l1 l2 : list vendor_match) (s s' : Q) :
  Forall (fun m => m_score m = s) l1 ->
  (s' <= s)%Q ->
  StronglySorted by_priority l2 ->
  Forall (fun m => (m_score m <= s')%Q) l2 ->
  StronglySorted by_priority (l1 ++ l2)
  /\ Forall (fun m => (m_score m <= s)%Q) (l1 ++ l2).
Proof.
  intros H1 Hs H2 Hb.
  assert (Hb' : Forall (fun m => (m_score m <= s)%Q) l2).
  { eapply Forall_impl; [exact Hb|]. intros m Hm. simpl in Hm.
    eapply Qle_trans; [exact Hm | exact Hs]. }
  induction H1 as [|m l1 Hm _ IH]; simpl; [auto|].
  destruct IH as [IHs IHb]. split.
  - constructor; [exact IHs|].
    eapply Forall_impl; [exact IHb|]. intros m' Hm'. unfold by_priority.
    now rewrite Hm.
  - constructor; [rewrite Hm; apply Qle_refl | exact IHb].
Qed.

(** The matches of a page come in order of descending score. *)
Lemma page_matches_by_priority (text : option string) :
  StronglySorted by_priority
    (page_matches zs mapping (dom mapping) (extract_candidates text)).
Proof.
  destruct (extract_candidates_by_anchor text)
    as (c1 & c2 & c3 & c4 & -> & H1 & H2 & H3 & H4).
  rewrite !page_matches_app.
  apply (page_matches_one_label "Model") in H1.
  apply (page_matches_one_label "Item") in H2.
  apply (page_matches_one_label "Internet") in H3.
  apply (page_matches_one_label "SKU") in H4.
  rewrite <- (app_nil_r (page_matches zs mapping (dom mapping) c4)).
  assert (Hle : forall a b, Qle_bool a b = true -> (a <= b)%Q)
    by (intros a b; apply Qle_bool_iff).
  destruct (by_priority_chunk _ [] _ (score_of "SKU") H4) as [S4 B4];
    [apply Qle_refl | constructor | constructor |].
  destruct (by_priority_chunk _ _ _ (score_of "SKU") H3
              (Hle (score_of "SKU") (score_of "Internet") eq_refl) S4 B4)
    as [S3 B3].
  destruct (by_priority_chunk _ _ _ (score_of "Internet") H2
              (Hle (score_of "Internet") (score_of "Item") eq_refl) S3 B3)
    as [S2 B2].
  destruct (by_priority_chunk _ _ _ (score_of "Item") H1
              (Hle (score_of "Item") (score_of "Model") eq_refl) S2 B2)
    as [S1 _].
  exact S1.
Qed.

End PageOrder.

(** When the scores never increase, the best match is the first match. *)
Lemma best_match_head (matches : list vendor_match) :
  StronglySorted by_priority matches -> best_match matches = head matches.
Proof.
  intros Hs. destruct matches as [|b0 rest]; [reflexivity|].
  destruct (best_match_first_greatest (b0 :: rest))
    as (pre & b & post & Hl & Hb & Hpre & _); [discriminate|].
  rewrite Hb. destruct pre as [|x pre]; simpl in Hl.
  - now injection Hl as -> _.
  - exfalso. injection Hl as <- ->.
    apply StronglySorted_inv in Hs as [_ Hall].
    assert (Hlt : (m_score b0 < m_score b)%Q) by (apply Hpre; left).
    assert (Hle : (m_score b <= m_score b0)%Q).
    { rewrite Forall_forall in Hall. apply Hall. apply elem_of_app. right. left. }
    apply (Qlt_not_le _ _ Hlt Hle).
Qed.

(** On a page the reported match is the first match: the anchor of highest
    priority that resolved, at its first occurrence in the text. *)
Lemma page_best_match_is_first (zs : bool) (mapping : gmap string string)
  (page : extraction) :
  best_match (page_matches zs mapping (dom mapping) (page_candidates page))
  = head (page_matches zs mapping (dom mapping) (page_candidates page)).
Proof. apply best_match_head, page_matches_by_priority. Qed.

(** * Further properties *)

(** ** More on the key normalizer *)

Section KeyShape.

Lemma all_and (p q : ascii -> bool) s :
  Str.all p s = true -> Str.all q s = true ->
  Str.all (fun c => p c && q c) s = true.
Proof.
  induction s as [|c s IH]; simpl; [reflexivity|].
  intros [-> Hp]%andb_prop [-> Hq]%andb_prop. simpl. auto.
Qed.

Lemma upper_not_lower c : Char.is_lower (Char.upper c) = false.
Proof. by_cases_on_char c. Qed.

Lemma upper_lower c : Char.upper (Char.lower c) = Char.upper c.
Proof. by_cases_on_char c. Qed.

Lemma lower_is_space c : Char.is_space (Char.lower c) = Char.is_space c.
Proof. by_cases_on_char c. Qed.

Lemma lower_is_zero c : is_zero (Char.lower c) = is_zero c.
Proof. by_cases_on_char c. Qed.

Lemma upper_is_lf c : Ascii.eqb (Char.upper c) "010" = Ascii.eqb c "010".
Proof. by_cases_on_char c. Qed.

Lemma lower_is_lf c : Ascii.eqb (Char.lower c) "010" = Ascii.eqb c "010".
Proof. by_cases_on_char c. Qed.

Variable f : ascii -> ascii.
Variable p : ascii -> bool.
Hypothesis p_f : forall c, p (f c) = p c.

Lemma lstrip_of_map s : Str.lstrip_of p (Str.map f s) = Str.map f (Str.lstrip_of p s).
Proof.
  induction s as [|c s IH]; simpl; [reflexivity|].
  rewrite p_f. now destruct (p c).
Qed.

Lemma rstrip_of_map s : Str.rstrip_of p (Str.map f s) = Str.map f (Str.rstrip_of p s).
Proof.
  induction s as [|c s IH]; simpl; [reflexivity|].
  rewrite IH, p_f. destruct (Str.rstrip_of p s); simpl; [now destruct (p c) | reflexivity].
Qed.

Lemma strip_of_map s : Str.strip_of p (Str.map f s) = Str.map f (Str.strip_of p s).
Proof. unfold Str.strip_of. now rewrite rstrip_of_map, lstrip_of_map. Qed.

Lemma span_length_map s : Str.span_length p (Str.map f s) = Str.span_length p s.
Proof.
  induction s as [|c s IH]; simpl; [reflexivity|]. rewrite p_f, IH. reflexivity.
Qed.

Lemma drop_map n s : Str.drop n (Str.map f s) = Str.map f (Str.drop n s).
Proof. revert s. induction n as [|n IH]; intros [|c s]; simpl; auto. Qed.

End KeyShape.

Lemma at_dollar_map (f : ascii -> ascii) s :
  (forall c, Ascii.eqb (f c) "010" = Ascii.eqb c "010") ->
  at_dollar (Str.map f s) = at_dollar s.
Proof. intros Hf. destruct s as [|c [|d s]]; simpl; auto. Qed.

Lemma strip_leading_zeros_map (f : ascii -> ascii) s :
  (forall c, is_zero (f c) = is_zero c) ->
  (forall c, Ascii.eqb (f c) "010" = Ascii.eqb c "010") ->
  strip_leading_zeros (Str.map f s) = Str.map f (strip_leading_zeros s).
Proof.
  intros Hz Hlf. unfold strip_leading_zeros.
  rewrite (span_length_map f is_zero Hz), !drop_map, (at_dollar_map f _ Hlf).
  reflexivity.
Qed.

Lemma map_map (f g : ascii -> ascii) s :
  Str.map f (Str.map g s) = Str.map (fun c => f (g c)) s.
Proof. induction s as [|c s IH]; simpl; [reflexivity|]. now rewrite IH. Qed.

Lemma map_ext (f g : ascii -> ascii) s :
  (forall c, f c = g c) -> Str.map f s = Str.map g s.
Proof. intros E. induction s as [|c s IH]; simpl; [reflexivity|]. now rewrite E, IH. Qed.

(** X1: the key of an ASCII token is in canonical form under either
    setting: it holds no space, [-], [_] or [/] and no lower-case letter. *)
Theorem normalize_key_canonical (zs : bool) (t : string) :
  ascii_text t ->
  Str.all key_char (normalize_key zs t) = true.
Proof.
  intros _. rewrite normalize_key_eq. unfold key_char.
  apply all_and; [apply all_filter|].
  apply all_filter_other. unfold Str.upper.
  generalize (if negb zs then strip_leading_zeros (Str.strip t) else Str.strip t).
  intros u. induction u as [|c u IH]; simpl; [reflexivity|].
  now rewrite upper_not_lower, IH.
Qed.

(** X1 witness: a token with spaces around it, lower-case letters and the
    three other separators; its key is AB12CD. *)
Lemma normalize_key_canonical_witness :
  ascii_text " ab-12/c_d "
  /\ normalize_key false " ab-12/c_d " = "AB12CD"
  /\ Str.all key_char (normalize_key false " ab-12/c_d ") = true.
Proof.
  assert (H : ascii_text " ab-12/c_d ") by reflexivity.
  split; [exact H|]. split; [reflexivity|].
  apply (normalize_key_canonical false " ab-12/c_d " H).
Defined.

(** X2: the key of an ASCII token does not depend on the case of its
    letters: the token, its lower-case form and its upper-case form have the
    same key. *)
Theorem normalize_key_ignores_case (zs : bool) (t : string) :
  ascii_text t ->
  normalize_key zs (Str.lower t) = normalize_key zs t
  /\ normalize_key zs (Str.upper t) = normalize_key zs t.
Proof.
  intros _. rewrite !normalize_key_eq. unfold Str.strip, Str.lower, Str.upper. split.
  - rewrite (strip_of_map Char.lower Char.is_space lower_is_space).
    destruct (negb zs).
    + rewrite (strip_leading_zeros_map Char.lower _ lower_is_zero lower_is_lf).
      rewrite map_map. f_equal. apply map_ext, upper_lower.
    + rewrite map_map. f_equal. apply map_ext, upper_lower.
  - rewrite (strip_of_map Char.upper Char.is_space upper_is_space).
    destruct (negb zs).
    + rewrite (strip_leading_zeros_map Char.upper _ upper_is_zero upper_is_lf).
      rewrite map_map. f_equal. apply map_ext, upper_upper.
    + rewrite map_map. f_equal. apply map_ext, upper_upper.
Qed.

(** X2 witness: the token ["Ab-12c"], whose lower-case form is ["ab-12c"]
    and whose key is AB12C either way. *)
Lemma normalize_key_ignores_case_witness :
  ascii_text "Ab-12c"
  /\ Str.lower "Ab-12c" = "ab-12c"
  /\ normalize_key false "ab-12c" = "AB12C"
  /\ normalize_key false (Str.lower "Ab-12c") = normalize_key false "Ab-12c"
  /\ normalize_key false (Str.upper "Ab-12c") = normalize_key false "Ab-12c".
Proof.
  assert (H : ascii_text "Ab-12c") by reflexivity.
  split; [exact H|]. split; [reflexivity|]. split; [reflexivity|].
  apply (normalize_key_ignores_case false "Ab-12c" H).
Defined.

(** ** The shape of the candidates *)

Section RegexFacts.

Lemma append_cons c a b : String c a +:+ b = String c (a +:+ b).
Proof. reflexivity. Qed.

Lemma length_append a b :
  String.length (a +:+ b) = (String.length a + String.length b)%nat.
Proof. induction a as [|c a IH]; [reflexivity|]. rewrite append_cons. simpl. now rewrite IH. Qed.

Lemma take_append a b :
  Str.take (String.length (a +:+ b) - String.length b) (a +:+ b) = a.
Proof.
  rewrite length_append.
  replace (String.length a + String.length b - String.length b)%nat
    with (String.length a) by lia.
  induction a as [|c a IH]; [now destruct b|].
  rewrite append_cons. simpl. now rewrite IH.
Qed.

Lemma all_append (p : ascii -> bool) a b :
  Str.all p (a +:+ b) = Str.all p a && Str.all p b.
Proof.
  induction a as [|c a IH]; [reflexivity|].
  rewrite append_cons. simpl. now rewrite IH, andb_assoc.
Qed.

Lemma run_class_inv p prev s prev' s' :
  In (prev', s') (run (Class p) prev s) ->
  exists c, s = String c s' /\ class_nocase p c = true.
Proof.
  simpl. destruct s as [|c s]; [intros []|].
  destruct (class_nocase p c) eqn:E; [|intros []].
  intros [[= _ <-]|[]]. eauto.
Qed.

Lemma run_seq_inv r1 r2 prev s x :
  In x (run (Seq r1 r2) prev s) ->
  exists prev1 s1, In (prev1, s1) (run r1 prev s) /\ In x (run r2 prev1 s1).
Proof.
  simpl. intros ([prev1 s1] & H1 & H2)%in_flat_map. eauto.
Qed.

Lemma run_many_inv p prev s prev' s2 :
  In (prev', s2) (run_many p prev s) ->
  exists pre, s = pre +:+ s2 /\ Str.all (class_nocase p) pre = true.
Proof.
  revert prev. induction s as [|c s IH]; intros prev; simpl.
  - intros [[= _ <-]|[]]. now exists "".
  - destruct (class_nocase p c) eqn:E.
    + intros [H|[[= _ <-]|[]]]%in_app_or.
      * destruct (IH _ H) as (pre & -> & Hpre). exists (String c pre).
        split; [reflexivity|]. simpl. now rewrite E.
      * now exists "".
    + intros [[= _ <-]|[]]. now exists "".
Qed.

Lemma class_A_Z0_9 c : class_nocase A_Z0_9 c = Char.is_alnum c.
Proof. by_cases_on_char c. Qed.

Lemma class_token_char c : class_nocase token_char c = token_symbol c.
Proof. by_cases_on_char c. Qed.

Lemma all_ext (p q : ascii -> bool) s :
  (forall c, p c = q c) -> Str.all p s = Str.all q s.
Proof. intros E. induction s as [|c s IH]; simpl; [reflexivity|]. now rewrite E, IH. Qed.

(** What the token pattern consumes is a well-formed token. *)
Lemma run_token_inv prev s1 prev' s2 :
  In (prev', s2) (run token prev s1) ->
  exists tok, s1 = tok +:+ s2 /\ well_formed_token tok = true.
Proof.
  unfold token.
  intros (p1 & t1 & Ha & H)%run_seq_inv.
  apply run_seq_inv in H as (p2 & t2 & Hb & H).
  apply run_seq_inv in H as (p3 & t3 & Hc & H).
  apply run_class_inv in Ha as (a & -> & Ea).
  apply run_class_inv in Hb as (b & -> & Eb).
  apply run_class_inv in Hc as (c & -> & Ec).
  apply run_many_inv in H as (pre & -> & Hpre).
  exists (String a (String b (String c pre))). split; [reflexivity|].
  rewrite class_A_Z0_9 in Ea. rewrite class_token_char in Eb, Ec.
  rewrite (all_ext _ token_symbol pre class_token_char) in Hpre.
  simpl. now rewrite Ea, Eb, Ec, Hpre.
Qed.

Lemma match_here_token pat prev s tok n :
  group2 pat = token ->
  match_here pat prev s = Some (tok, n) ->
  well_formed_token tok = true.
Proof.
  intros Hg. unfold match_here. rewrite Hg.
  destruct (flat_map _ _) as [|[s1 s2] rest] eqn:E; [discriminate|].
  intros [= <- _].
  assert (Hin : In (s1, s2)
    (flat_map (fun '(prev1, s1) =>
                 List.map (fun '(_, s2) => (s1, s2)) (run token prev1 s1))
              (run (group1 pat) prev s))) by (rewrite E; now left).
  apply in_flat_map in Hin as ([prev1 s1'] & _ & Hin).
  apply in_map_iff in Hin as ([q s2'] & [= <- <-] & Hin).
  apply run_token_inv in Hin as (tok & -> & Htok).
  now rewrite take_append.
Qed.

Lemma finditer_from_tokens pat skip prev s tok :
  group2 pat = token ->
  In tok (finditer_from pat skip prev s) ->
  well_formed_token tok = true.
Proof.
  intros Hg. revert skip prev.
  induction s as [|c s IH]; intros skip prev; simpl; [intros []|].
  destruct skip as [|k]; [|apply IH].
  destruct (match_here pat prev (String c s)) as [[tok' n]|] eqn:E; [|apply IH].
  intros [<-|H]; [now apply (match_here_token pat prev (String c s) tok' n) | now apply IH in H].
Qed.

Lemma token_symbol_not_space c : token_symbol c = true -> Char.is_space c = false.
Proof. by_cases_on_char c. Qed.

Lemma token_symbol_not_colon_hash c : token_symbol c = true -> Str.mem ":#" c = false.
Proof. by_cases_on_char c. Qed.

Lemma alnum_token_symbol c : Char.is_alnum c = true -> token_symbol c = true.
Proof. by_cases_on_char c. Qed.

Lemma well_formed_token_symbols tok :
  well_formed_token tok = true -> Str.all token_symbol tok = true.
Proof.
  destruct tok as [|a rest]; [discriminate|]. simpl.
  intros [[Ha Hr]%andb_prop _]%andb_prop.
  now rewrite (alnum_token_symbol a Ha), Hr.
Qed.

(** The two [strip] calls of [extract_candidates] leave a token as it is. *)
Lemma well_formed_token_strips tok :
  well_formed_token tok = true ->
  Str.strip_chars ":#" (Str.strip tok) = tok.
Proof.
  intros H%well_formed_token_symbols.
  unfold Str.strip. rewrite strip_of_id.
  - apply strip_of_id. revert H. apply all_impl.
    intros c Hc. now rewrite (token_symbol_not_colon_hash c Hc).
  - revert H. apply all_impl.
    intros c Hc. now rewrite (token_symbol_not_space c Hc).
Qed.

Lemma anchor_patterns_token :
  Forall (fun pl : pattern * string => group2 pl.1 = token) ANCHOR_PATTERNS.
Proof. repeat constructor. Qed.

Lemma extract_candidates_inv (text : option string) (label tok : string) :
  In (label, tok) (extract_candidates text) ->
  In label order /\ well_formed_token tok = true.
Proof.
  destruct text as [[|a s]|]; try (intros []).
  unfold extract_candidates.
  set (joined := Str.replace1 "010" " " (Str.replace1 "013" " " (String a s))).
  intros ([pat l] & Hpat & Hin)%in_flat_map.
  apply in_map_iff in Hin as (g2 & [= <- <-] & Hg2).
  assert (Hg : group2 pat = token).
  { pose proof anchor_patterns_token as Hall.
    rewrite List.Forall_forall in Hall. apply (Hall _ Hpat). }
  apply (finditer_from_tokens pat 0 None joined g2 Hg) in Hg2.
  split.
  - unfold order. apply in_map_iff. exists (pat, l). auto.
  - now rewrite well_formed_token_strips.
Qed.

End RegexFacts.

(** X3: every candidate of an ASCII page text carries one of the four
    anchor labels, and its token is an ASCII letter or digit followed by at
    least two characters among ASCII letters, digits, [-], [/] and [_]: at
    least three characters, no whitespace, no colon, no hash. *)
Theorem candidates_are_well_formed (text label tok : string) :
  ascii_text text ->
  In (label, tok) (extract_candidates (Some text)) ->
  In label ["Model"; "Item"; "Internet"; "SKU"]
  /\ well_formed_token tok = true
  /\ (3 <= String.length tok)%nat.
Proof.
  intros _ H. destruct (extract_candidates_inv (Some text) label tok H) as [Hl Ht].
  split; [exact Hl|]. split; [exact Ht|].
  destruct tok as [|a rest]; [discriminate|]. unfold well_formed_token in Ht.
  apply andb_prop in Ht as [_ Hlen]. apply Nat.leb_le in Hlen. simpl. lia.
Qed.

(** X3 witness: the Model number of a page. *)
Lemma candidates_are_well_formed_witness :
  ascii_text "Model #: ABC-123"
  /\ In ("Model", "ABC-123") (extract_candidates (Some "Model #: ABC-123"))
  /\ In "Model" ["Model"; "Item"; "Internet"; "SKU"]
  /\ well_formed_token "ABC-123" = true
  /\ (3 <= String.length "ABC-123")%nat.
Proof.
  assert (Ha : ascii_text "Model #: ABC-123") by reflexivity.
  assert (H : In ("Model", "ABC-123") (extract_candidates (Some "Model #: ABC-123")))
    by (vm_compute; left; reflexivity).
  split; [exact Ha|]. split; [exact H|].
  apply (candidates_are_well_formed "Model #: ABC-123" "Model" "ABC-123" Ha H).
Defined.

Lemma alnum_upper_not_separator c :
  Char.is_alnum c = true -> not_separator (Char.upper c) = true.
Proof. by_cases_on_char c. Qed.

Lemma well_formed_token_strip tok :
  well_formed_token tok = true -> Str.strip tok = tok.
Proof.
  intros H%well_formed_token_symbols. apply strip_of_id.
  revert H. apply all_impl. intros c Hc. now rewrite (token_symbol_not_space c Hc).
Qed.

(** X4: a candidate has the empty key only when leading zeros are stripped
    and its token starts with a zero; with [ZERO_SIGNIFICANT] on, no
    candidate of any page has the empty key. *)
Theorem candidate_key_empty_only_by_zero_stripping
  (zs : bool) (text : option string) (label tok : string) :
  In (label, tok) (extract_candidates text) ->
  normalize_key zs tok = "" ->
  zs = false /\ exists rest, tok = String "0" rest.
Proof.
  intros Hin Hkey.
  destruct (extract_candidates_inv text label tok Hin) as [_ Hwf].
  rewrite normalize_key_eq, (well_formed_token_strip tok Hwf) in Hkey.
  destruct tok as [|a rest]; [discriminate|].
  assert (Ha : Char.is_alnum a = true).
  { unfold well_formed_token in Hwf. now apply andb_prop in Hwf as [[Ha _]%andb_prop _]. }
  assert (Hne : Str.filter not_separator (Str.upper (String a rest)) <> "").
  { unfold Str.upper. simpl. now rewrite (alnum_upper_not_separator a Ha). }
  destruct zs; simpl in Hkey; [contradiction|].
  split; [reflexivity|].
  destruct (is_zero a) eqn:Ez.
  - apply is_zero_eq in Ez. subst a. eauto.
  - rewrite (strip_leading_zeros_no_zero a rest Ez) in Hkey. contradiction.
Qed.

(** X4 witness: the token ["0--"] with leading zeros stripped. *)
Lemma candidate_key_empty_only_by_zero_stripping_witness :
  In ("SKU", "0--") (extract_candidates (Some "SKU: 0--"))
  /\ normalize_key false "0--" = ""
  /\ false = false /\ exists rest, "0--" = String "0" rest.
Proof.
  assert (H : In ("SKU", "0--") (extract_candidates (Some "SKU: 0--")))
    by (vm_compute; left; reflexivity).
  split; [exact H|]. split; [reflexivity|].
  apply (candidate_key_empty_only_by_zero_stripping false (Some "SKU: 0--") "SKU" "0--" H).
  reflexivity.
Defined.

(** X5: the candidates of a text come anchor by anchor, in the order of
    [ANCHOR_PATTERNS]: all Model candidates, then the Item ones, then the
    Internet ones, then the SKU ones, whatever their order in the text. *)
Theorem candidates_grouped_by_anchor (text : option string) :
  exists models items internets skus,
    extract_candidates text
    = List.map (pair "Model") models ++ List.map (pair "Item") items
      ++ List.map (pair "Internet") internets ++ List.map (pair "SKU") skus.
Proof.
  destruct text as [[|a s]|]; try (exists [], [], [], []; reflexivity).
  unfold extract_candidates.
  set (joined := Str.replace1 "010" " " (Str.replace1 "013" " " (String a s))).
  unfold ANCHOR_PATTERNS. cbn [flat_map]. rewrite app_nil_r.
  set (clean := fun g2 => Str.strip_chars ":#" (Str.strip g2)).
  match goal with
  | |- context [List.map _ (finditer ?p1 joined) ++ List.map _ (finditer ?p2 joined)
                ++ List.map _ (finditer ?p3 joined) ++ List.map _ (finditer ?p4 joined)] =>
      exists (List.map clean (finditer p1 joined)), (List.map clean (finditer p2 joined)),
             (List.map clean (finditer p3 joined)), (List.map clean (finditer p4 joined))
  end.
  rewrite !List.map_map. reflexivity.
Qed.

(** ** File names *)

Section StripFacts.

Variable q : ascii -> bool.

Lemma lstrip_of_head s c r : Str.lstrip_of q s = String c r -> q c = false.
Proof.
  induction s as [|a s IH]; simpl; [discriminate|].
  destruct (q a) eqn:E; [exact IH|]. now intros [= <- _].
Qed.

Lemma lstrip_of_idem s : Str.lstrip_of q (Str.lstrip_of q s) = Str.lstrip_of q s.
Proof.
  destruct (Str.lstrip_of q s) as [|c r] eqn:E; [reflexivity|].
  simpl. now rewrite (lstrip_of_head s c r E).
Qed.

Lemma last_char_cons a s : s <> "" -> last_char (String a s) = last_char s.
Proof. destruct s; [congruence | reflexivity]. Qed.

Lemma last_char_rstrip s c : last_char (Str.rstrip_of q s) = Some c -> q c = false.
Proof.
  induction s as [|a s IH]; simpl; [discriminate|].
  destruct (Str.rstrip_of q s) as [|b r] eqn:E.
  - destruct (q a) eqn:Ea; simpl; [discriminate|]. now intros [= <-].
  - rewrite last_char_cons by discriminate. exact IH.
Qed.

Lemma last_char_lstrip s c :
  last_char (Str.lstrip_of q s) = Some c -> last_char s = Some c.
Proof.
  induction s as [|a s IH]; simpl Str.lstrip_of; [discriminate|].
  destruct (q a); [|auto].
  intros H. specialize (IH H). rewrite last_char_cons; [exact IH|].
  intros ->. discriminate.
Qed.

Lemma rstrip_of_fixed s :
  (forall c, last_char s = Some c -> q c = false) -> Str.rstrip_of q s = s.
Proof.
  induction s as [|a s IH]; [reflexivity|]. intros H.
  destruct s as [|b s].
  - simpl. now rewrite (H a eq_refl).
  - assert (E : Str.rstrip_of q (String b s) = String b s)
      by (apply IH; intros c Hc; apply H; now rewrite last_char_cons).
    change (Str.rstrip_of q (String a (String b s)))
      with (match Str.rstrip_of q (String b s) with
            | EmptyString => if q a then EmptyString else String a EmptyString
            | r => String a r
            end).
    now rewrite E.
Qed.

(** Stripping twice is stripping once. *)
Lemma strip_of_idem s : Str.strip_of q (Str.strip_of q s) = Str.strip_of q s.
Proof.
  unfold Str.strip_of.
  rewrite (rstrip_of_fixed (Str.lstrip_of q (Str.rstrip_of q s))).
  - apply lstrip_of_idem.
  - intros c Hc. apply last_char_lstrip in Hc. now apply last_char_rstrip in Hc.
Qed.

Variable p : ascii -> bool.

Lemma all_lstrip_of s : Str.all p s = true -> Str.all p (Str.lstrip_of q s) = true.
Proof.
  induction s as [|a s IH]; simpl; [reflexivity|].
  intros [Ha Hs]%andb_prop. destruct (q a); [auto|]. simpl. now rewrite Ha, Hs.
Qed.

Lemma all_rstrip_of s : Str.all p s = true -> Str.all p (Str.rstrip_of q s) = true.
Proof.
  induction s as [|a s IH]; simpl; [reflexivity|].
  intros [Ha Hs]%andb_prop. specialize (IH Hs).
  destruct (Str.rstrip_of q s) as [|b r].
  - destruct (q a); simpl; [reflexivity | now rewrite Ha].
  - simpl in *. now rewrite Ha, IH.
Qed.

End StripFacts.

Lemma sub_runs_all (b : bool) (s : string) :
  Str.all file_name_char
    (sub_runs (fun c => negb (Char.is_word c || Ascii.eqb c "-")) b s) = true.
Proof.
  revert b. induction s as [|c s IH]; intros b; simpl; [reflexivity|].
  destruct (Char.is_word c || Ascii.eqb c "-") eqn:E; simpl.
  - unfold file_name_char at 1. now rewrite E, IH.
  - destruct b; simpl; now rewrite IH.
Qed.

Lemma sub_runs_fixed (b : bool) (s : string) :
  Str.all file_name_char s = true ->
  sub_runs (fun c => negb (Char.is_word c || Ascii.eqb c "-")) b s = s.
Proof.
  revert b. induction s as [|c s IH]; intros b; simpl; [reflexivity|].
  unfold file_name_char at 1. intros [-> Hs]%andb_prop. simpl. now rewrite IH.
Qed.

Lemma safe_name_chars (s : string) : Str.all file_name_char (safe_name s) = true.
Proof.
  unfold safe_name, Str.strip_chars, Str.strip_of.
  apply all_lstrip_of, all_rstrip_of, sub_runs_all.
Qed.

(** X6: the safe name of an ASCII name holds only ASCII letters, digits,
    [_] and [-], so no dot, no slash and no space, and it neither starts nor
    ends with [_]. *)
Theorem safe_name_is_safe (s : string) :
  ascii_text s ->
  Str.all file_name_char (safe_name s) = true
  /\ (forall rest, safe_name s <> String "_" rest)
  /\ last_char (safe_name s) <> Some "_"%char.
Proof.
  intros _. split; [apply safe_name_chars|]. unfold safe_name, Str.strip_chars, Str.strip_of. split.
  - intros rest H. apply lstrip_of_head in H. discriminate.
  - intros H. apply last_char_lstrip, last_char_rstrip in H. discriminate.
Qed.

(** X6 witness: an upload name with spaces, brackets and a dot. *)
Lemma safe_name_is_safe_witness :
  ascii_text "PO 1234 (copy).pdf"
  /\ safe_name "PO 1234 (copy).pdf" = "PO_1234_copy_pdf"
  /\ Str.all file_name_char (safe_name "PO 1234 (copy).pdf") = true.
Proof.
  assert (H : ascii_text "PO 1234 (copy).pdf") by reflexivity.
  split; [exact H|]. split; [reflexivity|].
  apply (safe_name_is_safe "PO 1234 (copy).pdf" H).
Defined.

(** X7: a safe name is its own safe name. *)
Theorem safe_name_idempotent (s : string) : safe_name (safe_name s) = safe_name s.
Proof.
  unfold safe_name at 1.
  rewrite (sub_runs_fixed false (safe_name s) (safe_name_chars s)).
  unfold safe_name, Str.strip_chars. apply strip_of_idem.
Qed.

(** ** The vendor mapping, entry by entry *)

Section MappingFacts.

Variable zs : bool.
Variable vendor_col : string.
Variable key_cols : list string.

Lemma add_key_eq row v (m : gmap string string) col :
  add_key zs row v m col
  = if is_blank_key (row_key_text row col) then m
    else <[normalize_key zs (row_key_text row col) := v]> m.
Proof.
  unfold add_key, is_blank_key. fold (row_key_text row col).
  rewrite <- negb_orb. now destruct (_ || _).
Qed.

(** Once a key holds the row's vendor, the other key cells of the row keep
    it there. *)
Lemma add_keys_keep row v cols (m : gmap string string) k :
  m !! k = Some v ->
  fold_left (add_key zs row v) cols m !! k = Some v.
Proof.
  revert m. induction cols as [|c cols IH]; intros m Hm; simpl; [exact Hm|].
  apply IH. rewrite add_key_eq. destruct (is_blank_key _); [exact Hm|].
  destruct (decide (normalize_key zs (row_key_text row c) = k)) as [->|Hne].
  - apply lookup_insert_eq.
  - now rewrite lookup_insert_ne.
Qed.

Lemma add_keys_hit row v cols (m : gmap string string) k col :
  In col cols ->
  is_blank_key (row_key_text row col) = false ->
  normalize_key zs (row_key_text row col) = k ->
  fold_left (add_key zs row v) cols m !! k = Some v.
Proof.
  revert m. induction cols as [|c cols IH]; intros m Hin Hb Hk; [destruct Hin|].
  simpl. destruct Hin as [->|Hin]; [|now apply IH].
  apply add_keys_keep. rewrite add_key_eq, Hb, Hk. apply lookup_insert_eq.
Qed.

Lemma add_keys_miss row v cols (m : gmap string string) k :
  (forall col, In col cols -> is_blank_key (row_key_text row col) = false ->
               normalize_key zs (row_key_text row col) <> k) ->
  fold_left (add_key zs row v) cols m !! k = m !! k.
Proof.
  revert m. induction cols as [|c cols IH]; intros m H; simpl; [reflexivity|].
  rewrite IH by (intros col Hc; apply H; now right).
  rewrite add_key_eq. destruct (is_blank_key _) eqn:Hb; [reflexivity|].
  apply lookup_insert_ne. apply H; [now left | exact Hb].
Qed.

Lemma add_keys_inv row v cols (m : gmap string string) k w :
  fold_left (add_key zs row v) cols m !! k = Some w ->
  m !! k = Some w
  \/ (w = v /\ exists col, In col cols
                 /\ is_blank_key (row_key_text row col) = false
                 /\ normalize_key zs (row_key_text row col) = k).
Proof.
  revert m. induction cols as [|c cols IH]; intros m; simpl; [auto|].
  intros H. apply IH in H as [H|(-> & col & Hin & Hb & Hk)].
  - rewrite add_key_eq in H. destruct (is_blank_key _) eqn:Hb; [auto|].
    destruct (decide (normalize_key zs (row_key_text row c) = k)) as [Hk|Hne].
    + rewrite Hk, lookup_insert_eq in H. injection H as <-.
      right. split; [reflexivity|]. exists c. auto.
    + rewrite lookup_insert_ne in H by exact Hne. auto.
  - right. split; [reflexivity|]. exists col. auto.
Qed.

Lemma add_row_eq (m : gmap string string) row :
  add_row zs vendor_col key_cols m row
  = if is_blank_vendor (row_vendor vendor_col row) then m
    else fold_left (add_key zs row (row_vendor vendor_col row)) key_cols m.
Proof. reflexivity. Qed.

Lemma add_row_hit (m : gmap string string) row k :
  supplies zs vendor_col key_cols row k ->
  add_row zs vendor_col key_cols m row !! k = Some (row_vendor vendor_col row).
Proof.
  intros (Hv & col & Hin & Hb & Hk). rewrite add_row_eq, Hv.
  now apply (add_keys_hit row _ key_cols m k col).
Qed.

Lemma add_row_miss (m : gmap string string) row k :
  ~ supplies zs vendor_col key_cols row k ->
  add_row zs vendor_col key_cols m row !! k = m !! k.
Proof.
  intros Hn. rewrite add_row_eq.
  destruct (is_blank_vendor (row_vendor vendor_col row)) eqn:Hv; [reflexivity|].
  apply add_keys_miss. intros col Hin Hb Hk. apply Hn. split; [exact Hv|]. eauto.
Qed.

Lemma add_row_inv (m : gmap string string) row k w :
  add_row zs vendor_col key_cols m row !! k = Some w ->
  m !! k = Some w
  \/ (w = row_vendor vendor_col row /\ supplies zs vendor_col key_cols row k).
Proof.
  rewrite add_row_eq.
  destruct (is_blank_vendor (row_vendor vendor_col row)) eqn:Hv; [auto|].
  intros [H|(-> & col & Hc)]%add_keys_inv; [auto|].
  right. split; [reflexivity|]. split; [exact Hv|]. eauto.
Qed.

Lemma add_rows_miss rows (m : gmap string string) k :
  (forall row, In row rows -> ~ supplies zs vendor_col key_cols row k) ->
  fold_left (add_row zs vendor_col key_cols) rows m !! k = m !! k.
Proof.
  revert m. induction rows as [|r rows IH]; intros m H; simpl; [reflexivity|].
  rewrite IH by (intros row Hr; apply H; now right).
  apply add_row_miss, H. now left.
Qed.

Lemma add_rows_inv rows (m : gmap string string) k w :
  fold_left (add_row zs vendor_col key_cols) rows m !! k = Some w ->
  m !! k = Some w
  \/ exists row, In row rows /\ w = row_vendor vendor_col row
                 /\ supplies zs vendor_col key_cols row k.
Proof.
  revert m. induction rows as [|r rows IH]; intros m; simpl; [auto|].
  intros [H|(row & Hin & Hw & Hs)]%IH.
  - apply add_row_inv in H as [H|[Hw Hs]]; [auto|]. right. exists r. auto.
  - right. exists row. auto.
Qed.

Lemma add_keys_some row v cols (m : gmap string string) k :
  is_Some (m !! k) -> is_Some (fold_left (add_key zs row v) cols m !! k).
Proof.
  revert m. induction cols as [|c cols IH]; intros m Hm; simpl; [exact Hm|].
  apply IH. rewrite add_key_eq. destruct (is_blank_key _); [exact Hm|].
  destruct (decide (normalize_key zs (row_key_text row c) = k)) as [->|Hne].
  - rewrite lookup_insert_eq. eauto.
  - now rewrite lookup_insert_ne.
Qed.

Lemma add_rows_some rows (m : gmap string string) k :
  is_Some (m !! k) ->
  is_Some (fold_left (add_row zs vendor_col key_cols) rows m !! k).
Proof.
  revert m. induction rows as [|r rows IH]; intros m Hm; simpl; [exact Hm|].
  apply IH. rewrite add_row_eq.
  destruct (is_blank_vendor _); [exact Hm | now apply add_keys_some].
Qed.

End MappingFacts.

Lemma mapping_lookup_complete
  (zs : bool) (vendor_col : string) (key_cols : list string)
  (rows : list (gmap string cell)) (row : gmap string cell) (k : string) :
  In row rows -> supplies zs vendor_col key_cols row k ->
  is_Some (build_mapping zs vendor_col key_cols rows !! k).
Proof.
  intros Hin Hs. unfold build_mapping.
  apply in_split in Hin as (before & after & ->).
  rewrite fold_left_app. simpl. apply add_rows_some.
  rewrite (add_row_hit zs vendor_col key_cols _ row k Hs). eauto.
Qed.

(** X8: the mapping holds what the sheet supplies and nothing else: every
    entry maps the normalized text of a non-blank key cell to the vendor of
    its row, a vendor that is not blank, and every key a row supplies is a key
    of the mapping. *)
Theorem mapping_entries_come_from_rows
  (zs : bool) (vendor_col : string) (key_cols : list string)
  (rows : list (gmap string cell)) :
  (forall k v,
     build_mapping zs vendor_col key_cols rows !! k = Some v ->
     exists row, In row rows /\ v = row_vendor vendor_col row
                 /\ is_blank_vendor v = false
                 /\ supplies zs vendor_col key_cols row k)
  /\ (forall row k,
        In row rows -> supplies zs vendor_col key_cols row k ->
        is_Some (build_mapping zs vendor_col key_cols rows !! k)).
Proof.
  unfold build_mapping. split.
  - intros k v [H|(row & Hin & -> & Hs)]%add_rows_inv.
    + rewrite lookup_empty in H. discriminate.
    + exists row. repeat split; auto; apply Hs.
  - intros row k Hin Hs.
    apply in_split in Hin as (before & after & ->).
    rewrite fold_left_app. simpl. apply add_rows_some.
    rewrite (add_row_hit zs vendor_col key_cols _ row k Hs). eauto.
Qed.

(** X9: the last row wins: a key maps to the vendor of the last row that
    supplies it, whatever earlier rows say. *)
Theorem mapping_last_row_wins
  (zs : bool) (vendor_col : string) (key_cols : list string)
  (before after : list (gmap string cell)) (row : gmap string cell) (k : string) :
  supplies zs vendor_col key_cols row k ->
  (forall r, In r after -> ~ supplies zs vendor_col key_cols r k) ->
  build_mapping zs vendor_col key_cols (before ++ row :: after) !! k
  = Some (row_vendor vendor_col row).
Proof.
  intros Hs Hafter. unfold build_mapping. rewrite fold_left_app. simpl.
  rewrite (add_rows_miss zs vendor_col key_cols after _ k Hafter).
  now apply add_row_hit.
Qed.

(** X9 witness: two rows give the key ABC123, to Acme and then to Beta. *)
Lemma mapping_last_row_wins_witness :
  supplies false "Vendor" ["SKU"]
    {[ "Vendor" := CellText "Beta"; "SKU" := CellText "abc-123" ]} "ABC123"
  /\ build_mapping false "Vendor" ["SKU"]
       ([ {[ "Vendor" := CellText "Acme"; "SKU" := CellText "ABC123" ]} ]
        ++ {[ "Vendor" := CellText "Beta"; "SKU" := CellText "abc-123" ]} :: [])
     !! "ABC123"
     = Some (row_vendor "Vendor" {[ "Vendor" := CellText "Beta"; "SKU" := CellText "abc-123" ]}).
Proof.
  assert (Hs : supplies false "Vendor" ["SKU"]
    {[ "Vendor" := CellText "Beta"; "SKU" := CellText "abc-123" ]} "ABC123").
  { split; [reflexivity|]. exists "SKU". split; [now left|]. split; vm_compute; reflexivity. }
  split; [exact Hs|].
  apply (mapping_last_row_wins false "Vendor" ["SKU"]
           [ {[ "Vendor" := CellText "Acme"; "SKU" := CellText "ABC123" ]} ] [] _ "ABC123" Hs).
  intros r [].
Defined.

(** ** Column selection and the outcome of a run *)

Section SubstringFacts.

Lemma prefix_spec (n s : string) :
  String.prefix n s = true <-> exists post, s = n +:+ post.
Proof.
  revert s. induction n as [|a n IH]; intros s.
  - split; [intros _; now exists s | intros _; now destruct s].
  - destruct s as [|b s]; [split; [discriminate | intros [post [=]]]|].
    simpl. destruct (ascii_dec a b) as [->|Hne].
    + rewrite IH. split; intros [post E]; exists post.
      * now rewrite append_cons, <- E.
      * rewrite append_cons in E. now injection E.
    + split; [discriminate|]. intros [post E]. rewrite append_cons in E.
      injection E as E _. congruence.
Qed.

Lemma contains_nil n : Str.contains n "" = String.prefix n "".
Proof. simpl. apply orb_false_r. Qed.

Lemma contains_cons n c s :
  Str.contains n (String c s) = String.prefix n (String c s) || Str.contains n s.
Proof. reflexivity. Qed.

Lemma contains_spec (n s : string) :
  Str.contains n s = true <-> has_substring n s.
Proof.
  unfold has_substring. induction s as [|c s IH].
  - rewrite contains_nil, prefix_spec. split.
    + intros [post E]. now exists "", post.
    + intros (pre & post & E). destruct pre as [|a pre]; [now exists post|].
      rewrite append_cons in E. discriminate.
  - rewrite contains_cons, orb_true_iff, prefix_spec, IH. split.
    + intros [[post E]|(pre & post & E)].
      * now exists "", post.
      * exists (String c pre), post. now rewrite append_cons, <- E.
    + intros (pre & post & E). destruct pre as [|a pre].
      * left. now exists post.
      * right. rewrite append_cons in E. injection E as _ E. eauto.
Qed.

Lemma find_first {A} (f : A -> bool) (l : list A) (x : A) :
  List.find f l = Some x ->
  exists before after,
    l = before ++ x :: after /\ f x = true
    /\ forall y, In y before -> f y = false.
Proof.
  induction l as [|a l IH]; simpl; [discriminate|].
  destruct (f a) eqn:E.
  - intros [= ->]. exists [], l. repeat split; auto. intros y [].
  - intros (before & after & -> & Hx & Hb)%IH.
    exists (a :: before), after. repeat split; auto.
    intros y [<-|Hy]; auto.
Qed.

Lemma find_vendor_col_none columns :
  find_vendor_col columns = None ->
  forall c, In c columns -> ~ names_vendor c.
Proof.
  intros H c Hc Hn. apply contains_spec in Hn.
  apply (find_none _ _ H) in Hc. simpl in Hc. congruence.
Qed.

Lemma find_key_cols_spec columns c :
  In c (find_key_cols columns) <-> In c columns /\ names_key c.
Proof.
  unfold find_key_cols, names_key. rewrite filter_In, existsb_exists.
  split; intros [Hc (w & Hw & H)]; (split; [exact Hc|]); exists w;
    (split; [exact Hw|]); now apply contains_spec.
Qed.

End SubstringFacts.

(** X10: a run goes through exactly when there is a PDF, a readable sheet, a
    header containing "vendor" and a header containing "sku", "item", "model"
    or "internet", in any case; the vendor column is then the first such
    header, the key columns all such headers, and one record is logged per
    page. Otherwise it ends with the error of the first of these that is
    missing and processes nothing. *)
Theorem run_needs_its_inputs
  (zs : bool) (store_key : string) (pdfs : list pdf) (xls : xls_upload) :
  match process_store_ui zs store_key pdfs xls with
  | inl MissingUpload => pdfs = [] \/ xls = NoXls
  | inl ExcelUnreadable => pdfs <> [] /\ xls = BadXls
  | inl NoVendorColumn =>
      pdfs <> [] /\ exists df, xls = Xls df
        /\ forall c, In c (df_columns df) -> ~ names_vendor c
  | inl NoKeyColumns =>
      pdfs <> [] /\ exists df, xls = Xls df
        /\ (exists c, In c (df_columns df) /\ names_vendor c)
        /\ forall c, In c (df_columns df) -> ~ names_key c
  | inr st =>
      pdfs <> [] /\ exists df vendor_col key_cols before after,
        xls = Xls df
        /\ df_columns df = before ++ vendor_col :: after
        /\ names_vendor vendor_col
        /\ (forall c, In c before -> ~ names_vendor c)
        /\ key_cols <> []
        /\ (forall c, In c key_cols <-> In c (df_columns df) /\ names_key c)
        /\ st = route_pages zs (build_mapping zs vendor_col key_cols (df_rows df))
                  store_key pdfs
        /\ length (logs st) = total_pages pdfs
  end.
Proof.
  unfold process_store_ui.
  destruct pdfs as [|f pdfs]; [now left|].
  destruct xls as [| |df]; [now right | split; [discriminate | reflexivity] |].
  destruct (find_vendor_col (df_columns df)) as [vc|] eqn:Ev.
  - apply find_first in Ev as (before & after & Hcols & Hv & Hb).
    assert (Hvc : names_vendor vc) by now apply contains_spec.
    destruct (find_key_cols (df_columns df)) as [|kc kcs] eqn:Ek.
    + split; [discriminate|]. exists df. split; [reflexivity|]. split.
      * exists vc. split; [rewrite Hcols; apply in_elt | exact Hvc].
      * intros c Hc Hn.
        assert (H : In c (find_key_cols (df_columns df)))
          by now apply find_key_cols_spec.
        rewrite Ek in H. destruct H.
    + split; [discriminate|].
      exists df, vc, (kc :: kcs), before, after.
      split; [reflexivity|]. split; [exact Hcols|]. split; [exact Hvc|].
      split.
      { intros c Hc Hn. apply contains_spec in Hn.
        specialize (Hb c Hc). simpl in Hb. congruence. }
      split; [discriminate|]. split.
      { intros c. rewrite <- Ek. apply find_key_cols_spec. }
      split; [reflexivity|].
      unfold route_pages.
      now destruct (process_pdfs_counts zs
                      (build_mapping zs vc (kc :: kcs) (df_rows df))
                      (dom (build_mapping zs vc (kc :: kcs) (df_rows df)))
                      store_key (f :: pdfs) initial_state) as [-> _].
  - split; [discriminate|]. exists df. split; [reflexivity|].
    now apply find_vendor_col_none.
Qed.

(** ** Invariants of a run *)

Section RunInvariants.

Variable zs : bool.
Variable mapping : gmap string string.
Variable store_key : string.

(** What every execution of the loop body preserves holds after the run. *)
Lemma route_pages_invariant (P : run_state -> Prop) (pdfs : list pdf) :
  P initial_state ->
  (forall st name i page,
     P st -> P (process_page zs mapping (dom mapping) store_key name st i page)) ->
  P (route_pages zs mapping store_key pdfs).
Proof.
  intros H0 Hstep. unfold route_pages.
  generalize initial_state H0. induction pdfs as [|f pdfs IH]; intros st Hst; [exact Hst|].
  simpl. apply IH. unfold process_pdf. destruct (pdf_reader f) as [pages|]; [|exact Hst].
  generalize (enumerate pages) st Hst. intros l.
  induction l as [|[i page] l IHl]; intros st' Hst'; simpl; [exact Hst'|].
  apply IHl, Hstep, Hst'.
Qed.

Lemma route_candidates_log keyset name st i cands :
  exists r,
    logs (route_candidates zs mapping keyset store_key name st i cands) = logs st ++ [r]
    /\ store r = store_key /\ source_pdf r = name /\ page_index r = pretty i.
Proof.
  unfold route_candidates.
  destruct (page_vendors (page_matches zs mapping keyset cands)) as [|v [|w l]];
    simpl; eexists; (split; [reflexivity|]); simpl; auto.
Qed.

Lemma process_pages_logs keyset name (pages : list extraction) (a : nat) st :
  List.map (fun r => (store r, source_pdf r, page_index r))
    (logs (fold_left (fun st '(i, page) =>
                        process_page zs mapping keyset store_key name st i page)
                     (combine (seq a (length pages)) pages) st))
  = List.map (fun r => (store r, source_pdf r, page_index r)) (logs st)
    ++ List.map (fun i => (store_key, name, pretty i)) (seq a (length pages)).
Proof.
  revert a st. induction pages as [|page pages IH]; intros a st; simpl.
  - now rewrite app_nil_r.
  - rewrite IH. unfold process_page.
    destruct (route_candidates_log keyset name st a
                (extract_candidates (Some (page_text page))))
      as (r & -> & Hs & Hn & Hi).
    rewrite List.map_app. simpl. rewrite Hs, Hn, Hi, <- app_assoc. reflexivity.
Qed.

Lemma process_pdfs_logs keyset (pdfs : list pdf) st :
  List.map (fun r => (store r, source_pdf r, page_index r))
    (logs (fold_left (process_pdf zs mapping keyset store_key) pdfs st))
  = List.map (fun r => (store r, source_pdf r, page_index r)) (logs st)
    ++ List.map (fun '(name, i) => (store_key, name, pretty i)) (expected_pages pdfs).
Proof.
  revert st. induction pdfs as [|f pdfs IH]; intros st; simpl.
  - now rewrite app_nil_r.
  - rewrite IH. unfold process_pdf, enumerate.
    destruct (pdf_reader f) as [pages|]; [|reflexivity].
    rewrite process_pages_logs, List.map_app, List.map_map, <- app_assoc.
    reflexivity.
Qed.

End RunInvariants.

(** X11: the log follows the processing order: one record per page of each
    PDF that opens, PDF by PDF in upload order and page by page, each with
    the store key, the PDF's name and the zero-based page index as text. *)
Theorem logs_follow_processing_order
  (zs : bool) (mapping : gmap string string) (store_key : string) (pdfs : list pdf) :
  List.map (fun r => (store r, source_pdf r, page_index r))
    (logs (route_pages zs mapping store_key pdfs))
  = List.map (fun '(name, i) => (store_key, name, pretty i)) (expected_pages pdfs).
Proof. unfold route_pages. now rewrite process_pdfs_logs. Qed.

Section RecordFacts.

Variable zs : bool.
Variable mapping : gmap string string.

(** With one distinct vendor there is a best match, and it is a match. *)
Lemma routed_page_first_step (cands : list candidate) (v : string) :
  page_vendors (page_matches zs mapping (dom mapping) cands) = [v] ->
  exists b, best_match (page_matches zs mapping (dom mapping) cands) = Some b
            /\ b ∈ page_matches zs mapping (dom mapping) cands.
Proof.
  intros E.
  destruct (best_match_first_greatest (page_matches zs mapping (dom mapping) cands))
    as (pre & b & post & Hl & Hb & _).
  { intros Hnil. rewrite Hnil, page_vendors_of_nil in E. discriminate. }
  exists b. split; [exact Hb|]. rewrite Hl. apply elem_of_app. right. left.
Qed.

Lemma page_matches_method (cands : list candidate) (m : vendor_match) :
  m ∈ page_matches zs mapping (dom mapping) cands -> m_method m = "native".
Proof.
  rewrite page_matches_resolve. intros ([label raw] & _ & Hr)%list_elem_of_omap.
  unfold resolve in Hr. destruct (mapping !! _); [|discriminate].
  now injection Hr as <-.
Qed.

Lemma anchor_confidence (label : string) :
  In label order ->
  In (label, format_2f (score_of label))
     [("Model", "1.00"); ("Item", "0.90"); ("Internet", "0.80"); ("SKU", "0.70")].
Proof.
  unfold order. simpl.
  intros [<-|[<-|[<-|[<-|[]]]]]; vm_compute; auto.
Qed.

(** The record of a routed page describes a match of the page. *)
Lemma routed_log_record store_key name i v (cands : list candidate) (b : vendor_match) :
  (forall label tok, In (label, tok) cands ->
     In label order /\ well_formed_token tok = true) ->
  b ∈ page_matches zs mapping (dom mapping) cands ->
  m_vendor b = v ->
  routed_record zs mapping (match_log store_key name i v b).
Proof.
  intros Hc Hb Hv.
  destruct (page_matches_score zs mapping cands b Hb) as (Hs & Hm & Hin & Hk).
  apply list_elem_of_In in Hin. destruct (Hc _ _ Hin) as [Hl Hw].
  unfold routed_record, match_log. simpl.
  split; [exact Hw|]. split; [exact Hk|]. split; [now rewrite Hm, Hv|].
  split; [now apply (page_matches_method cands)|].
  rewrite Hs. now apply anchor_confidence.
Qed.

Lemma process_page_record store_key name st i page :
  exists r,
    logs (process_page zs mapping (dom mapping) store_key name st i page)
    = logs st ++ [r]
    /\ (blank_record r \/ routed_record zs mapping r).
Proof.
  unfold process_page.
  set (cands := extract_candidates (Some (page_text page))).
  destruct (page_vendors (page_matches zs mapping (dom mapping) cands))
    as [|v [|w l]] eqn:E.
  - rewrite (route_unmatched _ _ _ _ _ _ _ _ E). eexists. split; [reflexivity|].
    left. unfold blank_record, blank_log. simpl. auto 10.
  - destruct (routed_page_first_step cands v E) as (b & Hb & Hin).
    rewrite (route_single _ _ _ _ _ _ _ _ _ E). simpl. rewrite Hb. simpl.
    eexists. split; [reflexivity|]. right.
    apply (routed_log_record store_key name i v cands b); auto.
    + intros label tok H. now apply (extract_candidates_inv (Some (page_text page))).
    + now apply (page_vendors_single_all _ v b E).
  - rewrite route_mixed by (rewrite E; simpl; lia). eexists. split; [reflexivity|].
    left. unfold blank_record. simpl. auto 10.
Qed.

End RecordFacts.

(** X12: every record of the log is of one of two kinds. Either the page
    was not routed: the vendor field is MIXED or UNMATCHED and the other
    fields are blank with confidence "0.00". Or it describes a match: the
    token is a well-formed token, the key is its key, the mapping sends the
    key to the record's vendor, the method is "native" and the confidence is
    the one of the anchor, "1.00" for Model, "0.90" for Item, "0.80" for
    Internet, "0.70" for SKU; the score 0.5 never shows. *)
Theorem log_records_are_consistent
  (zs : bool) (mapping : gmap string string) (store_key : string) (pdfs : list pdf) :
  Forall (fun r => blank_record r \/ routed_record zs mapping r)
         (logs (route_pages zs mapping store_key pdfs)).
Proof.
  apply (route_pages_invariant zs mapping store_key
           (fun st => Forall (fun r => blank_record r \/ routed_record zs mapping r) (logs st))).
  - constructor.
  - intros st name i page Hst.
    destruct (process_page_record zs mapping store_key name st i page) as (r & -> & Hr).
    apply Forall_app. split; [exact Hst|]. now constructor.
Qed.

(** ** The outputs of a run against its log *)

Section OutputFacts.

Variable zs : bool.
Variable mapping : gmap string string.
Variable store_key : string.

(** The three branches of the loop body, each with the record it logs. *)
Lemma process_page_cases name st i page :
  let st' := process_page zs mapping (dom mapping) store_key name st i page in
  (exists v r,
     added_to_vendor v st st' (name, i)
     /\ logs st' = logs st ++ [r]
     /\ vendor r = v /\ raw_token r <> ""
     /\ source_pdf r = name /\ page_index r = pretty i
     /\ exists k, mapping !! k = Some v)
  \/ (written_to_mixed st st' (page_file_name name i) (name, i)
      /\ logs st' = logs st ++ [blank_log store_key name i "MIXED"])
  \/ (written_to_unmatched st st' (page_file_name name i) (name, i)
      /\ logs st' = logs st ++ [blank_log store_key name i "UNMATCHED"]).
Proof.
  intros st'. subst st'. unfold process_page.
  set (cands := extract_candidates (Some (page_text page))).
  destruct (page_vendors (page_matches zs mapping (dom mapping) cands))
    as [|v [|w l]] eqn:E.
  - right; right. rewrite (route_unmatched _ _ _ _ _ _ _ _ E).
    repeat split; reflexivity.
  - left. destruct (routed_page_first_step zs mapping cands v E) as (b & Hb & Hin).
    rewrite (route_single _ _ _ _ _ _ _ _ _ E). simpl. rewrite Hb. simpl.
    destruct (page_matches_score zs mapping cands b Hin) as (_ & Hm & Hc & _).
    apply list_elem_of_In in Hc.
    destruct (extract_candidates_inv _ _ _ Hc) as [_ Hw].
    exists v. eexists. split; [repeat split; reflexivity|].
    split; [reflexivity|]. simpl. split; [reflexivity|].
    split; [intros Hraw; rewrite Hraw in Hw; discriminate|].
    split; [reflexivity|]. split; [reflexivity|].
    exists (m_nz b). now rewrite Hm, (page_vendors_single_all _ v b E Hin).
  - right; left. rewrite route_mixed by (rewrite E; simpl; lia).
    repeat split; reflexivity.
Qed.

Lemma logged_pages_app v l r :
  logged_pages v (l ++ [r])
  = logged_pages v l
    ++ (if String.eqb (vendor r) v && negb (String.eqb (raw_token r) "")
        then [(source_pdf r, page_index r)] else []).
Proof.
  unfold logged_pages. rewrite List.filter_app, List.map_app. simpl.
  now destruct (String.eqb (vendor r) v && negb (String.eqb (raw_token r) "")).
Qed.

Lemma logged_errors_app label l r :
  logged_errors label (l ++ [r])
  = logged_errors label l
    ++ (if String.eqb (vendor r) label && String.eqb (raw_token r) ""
        then [(source_pdf r, page_index r)] else []).
Proof.
  unfold logged_errors. rewrite List.filter_app, List.map_app. simpl.
  now destruct (String.eqb (vendor r) label && String.eqb (raw_token r) "").
Qed.

End OutputFacts.

(** X13: a vendor's writer holds the pages that the log attributes to the
    vendor through a match, in the order of the log, and no others. *)
Theorem vendor_writer_holds_the_logged_pages
  (zs : bool) (mapping : gmap string string) (store_key : string)
  (pdfs : list pdf) (v : string) :
  List.map page_name
    (default [] (vendor_writers (route_pages zs mapping store_key pdfs) !! v))
  = logged_pages v (logs (route_pages zs mapping store_key pdfs)).
Proof.
  apply (route_pages_invariant zs mapping store_key
           (fun st => List.map page_name (default [] (vendor_writers st !! v))
                      = logged_pages v (logs st))).
  - reflexivity.
  - intros st name i page IH.
    destruct (process_page_cases zs mapping store_key name st i page)
      as [(v' & r & (Hw & _) & Hl & Hv & Hraw & Hn & Hi & _)
         |[((Hw & _) & Hl)|((Hw & _) & Hl)]];
      rewrite Hl, Hw, logged_pages_app.
    + apply String.eqb_neq in Hraw. rewrite Hraw, Hv.
      change (negb false) with true. rewrite andb_true_r.
      destruct (String.eqb v' v) eqn:Ev.
      * apply String.eqb_eq in Ev.
        replace v' with v by congruence.
        rewrite writer_add_page_lookup. cbn [from_option id].
        rewrite List.map_app, IH, Hn, Hi. reflexivity.
      * apply String.eqb_neq in Ev.
        rewrite (writer_add_page_lookup_ne v' v _ _ Ev), app_nil_r. exact IH.
    + simpl. rewrite andb_false_r, app_nil_r. exact IH.
    + simpl. rewrite andb_false_r, app_nil_r. exact IH.
Qed.

(** X14: a vendor writer exists only for a vendor of the mapping and always
    holds at least one page: none is left empty when the vendor PDFs are
    written. *)
Theorem vendor_writers_are_known_and_not_empty
  (zs : bool) (mapping : gmap string string) (store_key : string)
  (pdfs : list pdf) (v : string) (w : list page_ref) :
  vendor_writers (route_pages zs mapping store_key pdfs) !! v = Some w ->
  w <> [] /\ exists k, mapping !! k = Some v.
Proof.
  revert v w.
  apply (route_pages_invariant zs mapping store_key
           (fun st => forall v w, vendor_writers st !! v = Some w ->
                                  w <> [] /\ exists k, mapping !! k = Some v)).
  - intros v w H. simpl in H. rewrite lookup_empty in H. discriminate.
  - intros st name i page IH v w.
    destruct (process_page_cases zs mapping store_key name st i page)
      as [(v' & r & (Hw & _) & _ & _ & _ & _ & _ & Hk)
         |[((Hw & _) & _)|((Hw & _) & _)]];
      rewrite Hw; [|apply IH..].
    destruct (decide (v' = v)) as [->|Hne].
    + rewrite writer_add_page_lookup. intros [= <-]. split; [|exact Hk].
      intros H. apply app_eq_nil in H as [_ H]. discriminate.
    + rewrite (writer_add_page_lookup_ne v' v _ _ Hne). apply IH.
Qed.

(** X14 witness: the writer of Acme after a run over one page. *)
Lemma vendor_writers_are_known_and_not_empty_witness :
  vendor_writers
    (route_pages false {[ "ABC123" := "Acme" ]} "Depot"
       [ {| pdf_name := "po.pdf"; pdf_reader := Some [Text "Model #: ABC-123"] |} ])
    !! "Acme" = Some [("po.pdf", 0%nat)]
  /\ [("po.pdf", 0%nat)] <> ([] : list page_ref)
  /\ exists k, ({[ "ABC123" := "Acme" ]} : gmap string string) !! k = Some "Acme".
Proof.
  assert (H : vendor_writers
    (route_pages false {[ "ABC123" := "Acme" ]} "Depot"
       [ {| pdf_name := "po.pdf"; pdf_reader := Some [Text "Model #: ABC-123"] |} ])
    !! "Acme" = Some [("po.pdf", 0%nat)]) by (vm_compute; reflexivity).
  split; [exact H|].
  apply (vendor_writers_are_known_and_not_empty false {[ "ABC123" := "Acme" ]} "Depot"
           [ {| pdf_name := "po.pdf"; pdf_reader := Some [Text "Model #: ABC-123"] |} ]
           "Acme" [("po.pdf", 0%nat)] H).
Defined.

(** The writes made under [errors/mixed] are, in order, one write per page
    that the log reports as MIXED, and likewise under [errors/unmatched]
    for UNMATCHED. *)
Lemma error_writes_match_the_log
  (zs : bool) (mapping : gmap string string) (store_key : string) (pdfs : list pdf) :
  exists mixed unmatched : list page_ref,
    mixed_dir (route_pages zs mapping store_key pdfs) = List.map page_file mixed
    /\ List.map page_name mixed
       = logged_errors "MIXED" (logs (route_pages zs mapping store_key pdfs))
    /\ unmatched_dir (route_pages zs mapping store_key pdfs) = List.map page_file unmatched
    /\ List.map page_name unmatched
       = logged_errors "UNMATCHED" (logs (route_pages zs mapping store_key pdfs)).
Proof.
  apply (route_pages_invariant zs mapping store_key
           (fun st => exists mixed unmatched : list page_ref,
              mixed_dir st = List.map page_file mixed
              /\ List.map page_name mixed = logged_errors "MIXED" (logs st)
              /\ unmatched_dir st = List.map page_file unmatched
              /\ List.map page_name unmatched = logged_errors "UNMATCHED" (logs st))).
  - exists [], []. repeat split; reflexivity.
  - intros st name i page (mixed & unmatched & Hm & Hml & Hu & Hul).
    destruct (process_page_cases zs mapping store_key name st i page)
      as [(v' & r & (_ & Hm' & Hu') & Hl & _ & Hraw & _)
         |[((_ & Hm' & Hu') & Hl)|((_ & Hm' & Hu') & Hl)]];
      rewrite Hl, Hm', Hu', !logged_errors_app.
    + apply String.eqb_neq in Hraw. rewrite Hraw, !andb_false_r, !app_nil_r.
      exists mixed, unmatched. auto.
    + exists (mixed ++ [(name, i)]), unmatched. simpl. rewrite !List.map_app, app_nil_r.
      rewrite Hm, Hml. auto.
    + exists mixed, (unmatched ++ [(name, i)]). simpl. rewrite !List.map_app, app_nil_r.
      rewrite Hu, Hul. auto.
Qed.

(** X16: on a page with one distinct vendor the record logged is that of the
    page's first match, the first occurrence of the highest anchor that
    resolves: sorting by score never moves another match to the front. *)
Theorem routed_page_logs_first_match
  (zs : bool) (mapping : gmap string string) (store_key name : string)
  (st : run_state) (i : nat) (page : extraction) (v : string) :
  page_vendors (page_matches zs mapping (dom mapping) (page_candidates page)) = [v] ->
  exists b rest,
    page_matches zs mapping (dom mapping) (page_candidates page) = b :: rest
    /\ logs (process_page zs mapping (dom mapping) store_key name st i page)
       = logs st ++ [match_log store_key name i v b].
Proof.
  intros E. unfold process_page. fold (page_candidates page).
  rewrite (route_single _ _ _ _ _ _ _ _ _ E), page_best_match_is_first.
  destruct (page_matches zs mapping (dom mapping) (page_candidates page))
    as [|b rest] eqn:Em.
  - rewrite page_vendors_of_nil in E. discriminate.
  - exists b, rest. split; reflexivity.
Qed.

(** X16 witness: a page whose SKU comes before its Model number in the text;
    the Model match is first and is the one logged. *)
Lemma routed_page_logs_first_match_witness :
  page_vendors
    (page_matches false {[ "ABC123" := "Acme"; "XYZ999" := "Acme" ]}
       (dom ({[ "ABC123" := "Acme"; "XYZ999" := "Acme" ]} : gmap string string))
       (page_candidates (Text "SKU XYZ999 Model #: ABC-123"))) = ["Acme"]
  /\ exists b rest,
       page_matches false {[ "ABC123" := "Acme"; "XYZ999" := "Acme" ]}
         (dom ({[ "ABC123" := "Acme"; "XYZ999" := "Acme" ]} : gmap string string))
         (page_candidates (Text "SKU XYZ999 Model #: ABC-123")) = b :: rest
       /\ m_label b = "Model"
       /\ logs (process_page false {[ "ABC123" := "Acme"; "XYZ999" := "Acme" ]}
                  (dom ({[ "ABC123" := "Acme"; "XYZ999" := "Acme" ]} : gmap string string))
                  "Depot" "po.pdf" initial_state 0
                  (Text "SKU XYZ999 Model #: ABC-123"))
          = [match_log "Depot" "po.pdf" 0 "Acme" b].
Proof.
  assert (E : page_vendors
    (page_matches false {[ "ABC123" := "Acme"; "XYZ999" := "Acme" ]}
       (dom ({[ "ABC123" := "Acme"; "XYZ999" := "Acme" ]} : gmap string string))
       (page_candidates (Text "SKU XYZ999 Model #: ABC-123"))) = ["Acme"])
    by (vm_compute; reflexivity).
  split; [exact E|].
  destruct (routed_page_logs_first_match false
              {[ "ABC123" := "Acme"; "XYZ999" := "Acme" ]} "Depot" "po.pdf"
              initial_state 0 (Text "SKU XYZ999 Model #: ABC-123") "Acme" E)
    as (b & rest & Hm & Hl).
  exists b, rest. split; [exact Hm|]. split; [|exact Hl].
  vm_compute in Hm. now injection Hm as <- _.
Defined.

(** X17: when the header of the vendor column also contains a key word, the
    vendor column is one of the key columns and every vendor name becomes a
    key of the mapping: its normalized form is looked up like a product
    number. *)
Theorem vendor_column_as_key_column
  (zs : bool) (vendor_col : string) (key_cols : list string)
  (rows : list (gmap string cell)) (row : gmap string cell) :
  In vendor_col key_cols ->
  In row rows ->
  is_blank_vendor (row_vendor vendor_col row) = false ->
  supplies zs vendor_col key_cols row (normalize_key zs (row_vendor vendor_col row))
  /\ is_Some (build_mapping zs vendor_col key_cols rows
              !! normalize_key zs (row_vendor vendor_col row)).
Proof.
  intros Hcol Hrow Hv.
  assert (Hsame : row_key_text row vendor_col = row_vendor vendor_col row).
  { unfold row_key_text, row_vendor, row_get, row_getitem in *.
    destruct (row !! vendor_col); [reflexivity | discriminate]. }
  assert (Hs : supplies zs vendor_col key_cols row
                 (normalize_key zs (row_vendor vendor_col row))).
  { split; [exact Hv|]. exists vendor_col. rewrite Hsame.
    split; [exact Hcol|]. split; [|reflexivity].
    unfold is_blank_vendor, is_blank_key, str_in in *. simpl in *.
    destruct (String.eqb (row_vendor vendor_col row) ""); [discriminate|].
    exact Hv. }
  split; [exact Hs|].
  now apply (mapping_lookup_complete zs vendor_col key_cols rows row).
Qed.

(** X17 witness: a sheet whose only column is headed "Vendor SKU". *)
Lemma vendor_column_as_key_column_witness :
  In "Vendor SKU" ["Vendor SKU"]
  /\ is_blank_vendor (row_vendor "Vendor SKU" {[ "Vendor SKU" := CellText "Acme" ]}) = false
  /\ is_Some (build_mapping false "Vendor SKU" ["Vendor SKU"]
                [ {[ "Vendor SKU" := CellText "Acme" ]} ]
              !! normalize_key false (row_vendor "Vendor SKU" {[ "Vendor SKU" := CellText "Acme" ]})).
Proof.
  assert (Hc : In "Vendor SKU" ["Vendor SKU"]) by now left.
  assert (Hv : is_blank_vendor
                 (row_vendor "Vendor SKU" {[ "Vendor SKU" := CellText "Acme" ]}) = false)
    by reflexivity.
  split; [exact Hc|]. split; [exact Hv|].
  apply (vendor_column_as_key_column false "Vendor SKU" ["Vendor SKU"]
           [ {[ "Vendor SKU" := CellText "Acme" ]} ] _ Hc); [now left | exact Hv].
Defined.

(** ** Conservation of pages *)

Section Conservation.

Variable zs : bool.
Variable mapping : gmap string string.
Variable store_key : string.

(** As [route_pages_invariant], with the pages gone through so far. *)
Lemma route_pages_invariant_pages (P : list page_ref -> run_state -> Prop)
  (pdfs : list pdf) :
  P [] initial_state ->
  (forall done st name i page,
     P done st ->
     P (done ++ [(name, i)])
       (process_page zs mapping (dom mapping) store_key name st i page)) ->
  P (expected_pages pdfs) (route_pages zs mapping store_key pdfs).
Proof.
  intros H0 Hstep. unfold route_pages.
  assert (H : forall (done : list page_ref) st,
             P done st ->
             P (done ++ expected_pages pdfs)
               (fold_left (process_pdf zs mapping (dom mapping) store_key) pdfs st));
    [|exact (H [] initial_state H0)].
  induction pdfs as [|f pdfs IH]; intros done st Hst.
  - simpl. now rewrite app_nil_r.
  - change (expected_pages (f :: pdfs))
      with (match pdf_reader f with
            | Some pages => List.map (pair (pdf_name f)) (seq 0 (length pages))
            | None => []
            end ++ expected_pages pdfs).
    rewrite app_assoc. simpl fold_left. apply IH.
    unfold process_pdf, enumerate. destruct (pdf_reader f) as [pages|];
      [|now rewrite app_nil_r].
    generalize 0%nat done st Hst.
    induction pages as [|page pages IHp]; intros a done' st' Hst'; simpl.
    + now rewrite app_nil_r.
    + change (done' ++ (pdf_name f, a) :: List.map (pair (pdf_name f)) (seq (S a) (length pages)))
        with (done' ++ [(pdf_name f, a)] ++ List.map (pair (pdf_name f)) (seq (S a) (length pages))).
      rewrite app_assoc. apply IHp, Hstep, Hst'.
Qed.




End Conservation.


(** ** Files on disk *)

Section FileNames.

Lemma pretty_N_char_digit x : Char.is_digit (pretty_N_char x) = true.
Proof. unfold pretty_N_char. repeat case_match; reflexivity. Qed.

Lemma pretty_N_go_digits x s :
  Str.all Char.is_digit s = true -> Str.all Char.is_digit (pretty_N_go x s) = true.
Proof.
  revert s. induction (N.lt_wf_0 x) as [x _ IH]. intros s Hs.
  destruct (decide (x = 0)%N) as [->|Hx].
  - now rewrite pretty_N_go_0.
  - rewrite pretty_N_go_step by lia. apply IH.
    + apply N.div_lt; lia.
    + simpl. now rewrite pretty_N_char_digit, Hs.
Qed.

(** A number prints as digits. *)
Lemma pretty_nat_digits (n : nat) : Str.all Char.is_digit (pretty n) = true.
Proof.
  unfold pretty, pretty_nat, pretty, pretty_N.
  destruct (decide (N.of_nat n = 0)%N); [reflexivity|].
  now apply pretty_N_go_digits.
Qed.

Lemma digit_not_underscore c : Char.is_digit c = true -> not_underscore c = true.
Proof. by_cases_on_char c. Qed.

Lemma append_cancel_r (a b c : string) : a +:+ c = b +:+ c -> a = b.
Proof.
  revert b. induction a as [|x a IH]; intros [|y b] E.
  - reflexivity.
  - exfalso. apply (f_equal String.length) in E.
    rewrite !length_append in E. simpl in E. lia.
  - exfalso. apply (f_equal String.length) in E.
    rewrite !length_append in E. simpl in E. lia.
  - rewrite !append_cons in E. injection E as -> E. f_equal. now apply IH.
Qed.

(** A text is cut in one way only at its last underscore. *)
Lemma cut_at_last_underscore (a1 a2 t1 t2 : string) :
  Str.all not_underscore t1 = true -> Str.all not_underscore t2 = true ->
  a1 +:+ String "_" t1 = a2 +:+ String "_" t2 ->
  a1 = a2 /\ t1 = t2.
Proof.
  intros H1 H2. revert a2. induction a1 as [|x a1 IH]; intros [|y a2] E.
  - now injection E as ->.
  - exfalso. rewrite append_cons in E. injection E as _ E.
    rewrite E, all_append in H1. simpl in H1. now rewrite andb_false_r in H1.
  - exfalso. rewrite append_cons in E. injection E as _ E.
    rewrite <- E, all_append in H2. simpl in H2. now rewrite andb_false_r in H2.
  - rewrite !append_cons in E. injection E as -> E.
    destruct (IH _ E) as [-> ->]. auto.
Qed.

Lemma page_file_name_inj n1 i1 n2 i2 :
  page_file_name n1 i1 = page_file_name n2 i2 ->
  safe_name n1 = safe_name n2 /\ i1 = i2.
Proof.
  unfold page_file_name. intros E.
  change (safe_name n1 +:+ String "_" (("p" +:+ pretty (i1 + 1)%nat) +:+ ".pdf")
          = safe_name n2 +:+ String "_" (("p" +:+ pretty (i2 + 1)%nat) +:+ ".pdf")) in E.
  assert (Ht : forall i, Str.all not_underscore (("p" +:+ pretty (i + 1)%nat) +:+ ".pdf") = true).
  { intros i. rewrite !all_append. simpl.
    rewrite (all_impl Char.is_digit not_underscore _ digit_not_underscore
               (pretty_nat_digits (i + 1))). reflexivity. }
  apply cut_at_last_underscore in E as [E1 E2]; [|apply Ht..].
  split; [exact E1|].
  apply append_cancel_r in E2. rewrite !append_cons in E2. injection E2 as E2.
  change (pretty (i1 + 1)%nat = pretty (i2 + 1)%nat) in E2.
  apply (inj (pretty : nat -> string)) in E2. lia.
Qed.

Lemma expected_pages_cons f pdfs :
  expected_pages (f :: pdfs)
  = match pdf_reader f with
    | Some pages => List.map (pair (pdf_name f)) (seq 0 (length pages))
    | None => []
    end ++ expected_pages pdfs.
Proof. reflexivity. Qed.

Lemma expected_pages_opened pdfs pg :
  pg ∈ expected_pages pdfs -> pg.1 ∈ opened_names pdfs.
Proof.
  induction pdfs as [|f pdfs IH]; [intros H; inversion H|].
  rewrite expected_pages_cons. unfold opened_names. simpl.
  destruct (pdf_reader f) as [pages|]; simpl; [|exact IH].
  intros [H|H]%elem_of_app.
  - apply list_elem_of_In, in_map_iff in H as (i & <- & _). left.
  - right. now apply IH.
Qed.

(** Distinct safe names of the PDFs give every page its own file name. *)
Lemma expected_pages_files pdfs :
  NoDup (safe_name <$> opened_names pdfs) ->
  NoDup (page_file_of <$> expected_pages pdfs).
Proof.
  induction pdfs as [|f pdfs IH]; [constructor|].
  rewrite expected_pages_cons. unfold opened_names. simpl.
  destruct (pdf_reader f) as [pages|]; simpl; [|exact IH].
  intros [Hf Hrest]%NoDup_cons. rewrite fmap_app. apply NoDup_app.
  split; [|split; [|now apply IH]].
  - generalize 0%nat. induction pages as [|page pages IHp]; intros a; simpl; [constructor|].
    apply NoDup_cons. split; [|apply IHp].
    intros H. apply list_elem_of_fmap in H as ([n i] & E & Hi).
    apply list_elem_of_In, in_map_iff in Hi as (j & [= <- <-] & Hj%in_seq).
    apply page_file_name_inj in E as [_ E]. simpl in E. lia.
  - intros file H1 H2.
    apply list_elem_of_fmap in H1 as (pg1 & -> & H1).
    apply list_elem_of_fmap in H2 as (pg2 & E & H2).
    apply list_elem_of_In, in_map_iff in H1 as (i & <- & _).
    apply page_file_name_inj in E as [E _]. simpl in E.
    apply Hf. rewrite E. apply list_elem_of_fmap_2. now apply expected_pages_opened.
Qed.

Lemma dir_files_snoc writes file pages :
  dir_files (writes ++ [(file, pages)]) = <[file := pages]> (dir_files writes).
Proof. unfold dir_files. now rewrite fold_left_app. Qed.

(** Without two writes of one name, every file holds what was written. *)
Lemma dir_files_lookup writes file pages :
  NoDup (writes.*1) -> (file, pages) ∈ writes ->
  dir_files writes !! file = Some pages.
Proof.
  induction writes as [|[g q] writes IH] using rev_ind; [intros _ H; inversion H|].
  rewrite fmap_app, dir_files_snoc. simpl.
  intros (Hw & Hg & _)%NoDup_app [H|H]%elem_of_app.
  - rewrite lookup_insert_ne; [now apply IH|].
    intros <-. apply (Hg g); [|left].
    apply list_elem_of_fmap. now exists (g, pages).
  - apply list_elem_of_singleton in H as [= -> ->]. apply lookup_insert_eq.
Qed.

End FileNames.

(** X19: when the PDFs that open have distinct safe names, no two pages get
    the same file name, so every file written under [errors/mixed] or
    [errors/unmatched] is still on disk with its page after the run: no later
    write replaces it. *)
Theorem error_files_are_not_replaced
  (zs : bool) (mapping : gmap string string) (store_key : string) (pdfs : list pdf)
  (file : string) (pages : list page_ref) :
  NoDup (safe_name <$> opened_names pdfs) ->
  ((file, pages) ∈ mixed_dir (route_pages zs mapping store_key pdfs) ->
   dir_files (mixed_dir (route_pages zs mapping store_key pdfs)) !! file = Some pages)
  /\ ((file, pages) ∈ unmatched_dir (route_pages zs mapping store_key pdfs) ->
      dir_files (unmatched_dir (route_pages zs mapping store_key pdfs)) !! file = Some pages).
Proof.
  intros Hnames.
  assert (Hinv : exists m u : list page_ref,
            mixed_dir (route_pages zs mapping store_key pdfs) = page_file <$> m
            /\ unmatched_dir (route_pages zs mapping store_key pdfs) = page_file <$> u
            /\ m `sublist_of` expected_pages pdfs
            /\ u `sublist_of` expected_pages pdfs).
  { apply (route_pages_invariant_pages zs mapping store_key
             (fun done st => exists m u : list page_ref,
                mixed_dir st = page_file <$> m /\ unmatched_dir st = page_file <$> u
                /\ m `sublist_of` done /\ u `sublist_of` done)).
    - exists [], []. repeat split; constructor.
    - intros done st name i page (m & u & Hm & Hu & Sm & Su).
      destruct (process_page_cases zs mapping store_key name st i page)
        as [(v & r & (_ & Hm' & Hu') & _)|[((_ & Hm' & Hu') & _)|((_ & Hm' & Hu') & _)]];
        rewrite Hm', Hu'.
      + exists m, u. repeat split; auto; now apply sublist_inserts_r.
      + exists (m ++ [(name, i)]), u. rewrite fmap_app, Hm. repeat split; auto.
        * now apply sublist_app.
        * now apply sublist_inserts_r.
      + exists m, (u ++ [(name, i)]). rewrite fmap_app, Hu. repeat split; auto.
        * now apply sublist_inserts_r.
        * now apply sublist_app. }
  destruct Hinv as (m & u & -> & -> & Sm & Su).
  pose proof (expected_pages_files pdfs Hnames) as Hnd.
  assert (Hfst : forall l : list page_ref, (page_file <$> l).*1 = page_file_of <$> l).
  { intros l. rewrite <- list_fmap_compose. reflexivity. }
  split; intros H; apply dir_files_lookup; auto; rewrite Hfst;
    eapply sublist_NoDup; [exact Hnd | now apply fmap_sublist | exact Hnd | now apply fmap_sublist].
Qed.

(** X19 witness: two PDFs of distinct names, one unmatched page each. *)
Lemma error_files_are_not_replaced_witness :
  NoDup (safe_name <$> opened_names
           [ {| pdf_name := "a.pdf"; pdf_reader := Some [Text "nothing"] |};
             {| pdf_name := "b.pdf"; pdf_reader := Some [Raises] |} ])
  /\ dir_files (unmatched_dir (route_pages false ∅ "Depot"
           [ {| pdf_name := "a.pdf"; pdf_reader := Some [Text "nothing"] |};
             {| pdf_name := "b.pdf"; pdf_reader := Some [Raises] |} ]))
       !! "a_pdf_p1.pdf" = Some [("a.pdf", 0%nat)].
Proof.
  assert (Hn : NoDup (safe_name <$> opened_names
           [ {| pdf_name := "a.pdf"; pdf_reader := Some [Text "nothing"] |};
             {| pdf_name := "b.pdf"; pdf_reader := Some [Raises] |} ])).
  { vm_compute. repeat constructor; intros H; repeat (inversion H; subst; clear H; try discriminate);
      match goal with H' : _ ∈ _ |- _ => inversion H' end. }
  split; [exact Hn|].
  apply (error_files_are_not_replaced false ∅ "Depot" _ "a_pdf_p1.pdf" [("a.pdf", 0%nat)] Hn).
  vm_compute. left.
Defined.

(** ** What is kept after the page loop *)

Section DiskFacts.


(** A file on disk holds what some write put there. *)
Lemma dir_files_lookup_inv writes file pages :
  dir_files writes !! file = Some pages -> (file, pages) ∈ writes.
Proof.
  induction writes as [|[g q] writes IH] using rev_ind.
  - intros H. exfalso. revert H. apply (eq_None_ne_Some_1 _ _), lookup_empty.
  - rewrite dir_files_snoc. destruct (decide (g = file)) as [->|Hne].
    + rewrite lookup_insert_eq. intros [= ->]. apply elem_of_app. right. left.
    + rewrite lookup_insert_ne by exact Hne. intros H.
      apply elem_of_app. left. now apply IH.
Qed.





Variable zs : bool.
Variable mapping : gmap string string.
Variable store_key : string.

(** The writes under the two error directories are writes of pages of the
    run, each under its own file name, in processing order. *)
Lemma error_writes_are_pages (pdfs : list pdf) :
  exists m u : list page_ref,
    mixed_dir (route_pages zs mapping store_key pdfs) = page_file <$> m
    /\ unmatched_dir (route_pages zs mapping store_key pdfs) = page_file <$> u
    /\ m `sublist_of` expected_pages pdfs
    /\ u `sublist_of` expected_pages pdfs.
Proof.
  apply (route_pages_invariant_pages zs mapping store_key
           (fun done st => exists m u : list page_ref,
              mixed_dir st = page_file <$> m /\ unmatched_dir st = page_file <$> u
              /\ m `sublist_of` done /\ u `sublist_of` done)).
  - exists [], []. repeat split; constructor.
  - intros done st name i page (m & u & Hm & Hu & Sm & Su).
    destruct (process_page_cases zs mapping store_key name st i page)
      as [(v & r & (_ & Hm' & Hu') & _)|[((_ & Hm' & Hu') & _)|((_ & Hm' & Hu') & _)]];
      rewrite Hm', Hu'.
    + exists m, u. repeat split; auto; now apply sublist_inserts_r.
    + exists (m ++ [(name, i)]), u. rewrite fmap_app, Hm. repeat split; auto.
      * now apply sublist_app.
      * now apply sublist_inserts_r.
    + exists m, (u ++ [(name, i)]). rewrite fmap_app, Hu. repeat split; auto.
      * now apply sublist_inserts_r.
      * now apply sublist_app.
Qed.

(** With distinct safe names no file name is written twice. *)
Lemma error_writes_nodup (pdfs : list pdf) :
  NoDup (safe_name <$> opened_names pdfs) ->
  NoDup ((mixed_dir (route_pages zs mapping store_key pdfs)).*1)
  /\ NoDup ((unmatched_dir (route_pages zs mapping store_key pdfs)).*1).
Proof.
  intros Hnames.
  destruct (error_writes_are_pages pdfs) as (m & u & -> & -> & Sm & Su).
  pose proof (expected_pages_files pdfs Hnames) as Hnd.
  assert (Hfst : forall l : list page_ref, (page_file <$> l).*1 = page_file_of <$> l).
  { intros l. rewrite <- list_fmap_compose. reflexivity. }
  rewrite !Hfst.
  split; (eapply sublist_NoDup; [exact Hnd | now apply fmap_sublist]).
Qed.




End DiskFacts.

(** ** Claims about what is kept *)






(** X15: when the PDFs that open have pairwise distinct safe names, the
    files on disk under [errors/mixed] after the page loop are exactly one
    file for each page that the log reports as MIXED: the file named
    [safe_name(pdf.name)], ["_p"], the page number counted from one and
    [".pdf"], holding that page and no other. Likewise under
    [errors/unmatched] for the pages reported as UNMATCHED. *)
Theorem error_files_on_disk_match_the_log
  (zs : bool) (mapping : gmap string string) (store_key : string) (pdfs : list pdf) :
  NoDup (safe_name <$> opened_names pdfs) ->
  (forall file pages,
     dir_files (mixed_dir (route_pages zs mapping store_key pdfs)) !! file = Some pages
     <-> exists name i,
           file = safe_name name +:+ "_p" +:+ pretty (i + 1)%nat +:+ ".pdf"
           /\ pages = [(name, i)]
           /\ In (name, pretty i)
                (logged_errors "MIXED" (logs (route_pages zs mapping store_key pdfs))))
  /\ (forall file pages,
        dir_files (unmatched_dir (route_pages zs mapping store_key pdfs)) !! file
        = Some pages
        <-> exists name i,
              file = safe_name name +:+ "_p" +:+ pretty (i + 1)%nat +:+ ".pdf"
              /\ pages = [(name, i)]
              /\ In (name, pretty i)
                   (logged_errors "UNMATCHED"
                      (logs (route_pages zs mapping store_key pdfs)))).
Proof.
  intros Hnames.
  destruct (error_writes_nodup zs mapping store_key pdfs Hnames) as [Hm Hu].
  destruct (error_writes_match_the_log zs mapping store_key pdfs)
    as (mixed & unmatched & Em & Elm & Eu & Elu).
  assert (Hchar : forall (writes : list (string * list page_ref)) (l : list page_ref)
                         (logged : list (string * string)),
             NoDup (writes.*1) -> writes = List.map page_file l ->
             List.map page_name l = logged ->
             forall file pages,
               dir_files writes !! file = Some pages
               <-> exists name i,
                     file = safe_name name +:+ "_p" +:+ pretty (i + 1)%nat +:+ ".pdf"
                     /\ pages = [(name, i)] /\ In (name, pretty i) logged).
  { intros writes l logged Hnd -> <- file pages. split.
    - intros H%dir_files_lookup_inv.
      apply list_elem_of_In, in_map_iff in H as ([name i] & [= <- <-] & Hin).
      exists name, i. split; [reflexivity|]. split; [reflexivity|].
      apply in_map_iff. exists (name, i). split; [reflexivity | exact Hin].
    - intros (name & i & -> & -> & Hin).
      apply in_map_iff in Hin as ([name' i'] & [= -> Ei] & Hin).
      change (pretty i' = pretty i) in Ei.
      apply (inj (pretty : nat -> string)) in Ei. subst i'.
      apply dir_files_lookup; [exact Hnd|].
      apply list_elem_of_In, in_map_iff. exists (name, i). split; [reflexivity | exact Hin]. }
  split.
  - apply (Hchar _ mixed); [exact Hm | exact Em | exact Elm].
  - apply (Hchar _ unmatched); [exact Hu | exact Eu | exact Elu].
Qed.

(** X15 witness: the second page of ["a.pdf"] has no product number; it is
    logged UNMATCHED and is on disk as [a_pdf_p2.pdf]. *)
Lemma error_files_on_disk_match_the_log_witness :
  NoDup (safe_name <$> opened_names distinct_uploads)
  /\ In ("a.pdf", "1")
       (logged_errors "UNMATCHED"
          (logs (route_pages false {[ "A1" := "Acme" ]} "Depot" distinct_uploads)))
  /\ dir_files (unmatched_dir
                  (route_pages false {[ "A1" := "Acme" ]} "Depot" distinct_uploads))
     !! "a_pdf_p2.pdf" = Some [("a.pdf", 1%nat)].
Proof.
  assert (Hn : NoDup (safe_name <$> opened_names distinct_uploads)).
  { apply (bool_decide_eq_true_1 _). vm_compute. reflexivity. }
  assert (Hl : In ("a.pdf", pretty 1%nat)
                 (logged_errors "UNMATCHED"
                    (logs (route_pages false {[ "A1" := "Acme" ]} "Depot"
                             distinct_uploads))))
    by (vm_compute; left; reflexivity).
  split; [exact Hn|]. split; [exact Hl|].
  apply (error_files_on_disk_match_the_log false {[ "A1" := "Acme" ]} "Depot"
           distinct_uploads Hn).
  exists "a.pdf", 1%nat. split; [vm_compute; reflexivity|]. split; [reflexivity | exact Hl].
Defined.
